(** * Lumina: the annotation and interaction state engine of [App.tsx]

    A shallow embedding of the state that the [App] component keeps in React
    hooks (tool selection, tool properties, zoom scale, the undo/redo history
    of annotation layers) and of the handlers that change it: the history
    handlers, the edit-mode toggle, the keyboard dispatcher [handleKeyDown] and
    the wheel handler [handleWheel].

    React reading of the source.  A handler is a closure built at render time:
    every state variable it _reads_ ([isEditMode], [historyStep], [history])
    has the value of the rendered snapshot, while every [setX] call it makes
    is queued and applied, in order, to the pending state.  A handler is
    therefore modelled as a function of the snapshot [c] that returns a
    [Handler]: a transformer of the pending state that also logs the calls
    it makes.  An event fires the handler with the pending state equal to the
    snapshot (the effect that installs [handleKeyDown] lists [isEditMode],
    [historyStep], [history] and [activeTool] as dependencies, and the other
    handlers are rebuilt by every render). *)

From Stdlib Require Import ZArith Floats List String Ascii Bool Lia.
Import ListNotations.

Set Warnings "-inexact-float".

Local Open Scope Z_scope.

(** * Part I: the model *)

(** ** JavaScript values used by the component *)

(** [number]: an IEEE 754 binary64 value, as the kernel's primitive floats.
    A decimal literal denotes the nearest binary64 value, as in JavaScript. *)
Definition number := float.
Bind Scope float_scope with number.

(** [Math.max]: NaN if an argument is NaN, and [+0] counts as larger than [-0]. *)
Definition Math_max (a b : number) : number :=
  if is_nan a || is_nan b then nan
  else if (a <? b)%float then b
  else if (b <? a)%float then a
  else if get_sign a then b else a.

(** [Math.min]: NaN if an argument is NaN, and [-0] counts as smaller than [+0]. *)
Definition Math_min (a b : number) : number :=
  if is_nan a || is_nan b then nan
  else if (a <? b)%float then a
  else if (b <? a)%float then b
  else if get_sign a then a else b.

(** [String.prototype.toLowerCase], on the ASCII letters.  Every key the
    dispatcher compares against is a single ASCII character, and the only
    strings whose lower-case form is such a character are the character
    itself and its ASCII capital. *)
Definition lower_ascii (ch : ascii) : ascii :=
  let n := nat_of_ascii ch in
  if (Nat.leb 65 n && Nat.leb n 90)%bool then ascii_of_nat (n + 32) else ch.

Fixpoint toLowerCase (s : string) : string :=
  match s with
  | EmptyString => EmptyString
  | String ch rest => String (lower_ascii ch) (toLowerCase rest)
  end.

(** [arr[i]] for an integer [i]: [None] stands for [undefined]. *)
Definition index {A : Type} (arr : list A) (i : Z) : option A :=
  if (0 <=? i) then nth_error arr (Z.to_nat i) else None.

(** [arr.length] *)
Definition length_ {A : Type} (arr : list A) : Z := Z.of_nat (List.length arr).

(** [arr.slice(0, end)]: a negative [end] counts from the back, and the
    final index is clipped to [0 .. arr.length]. *)
Definition slice0 {A : Type} (arr : list A) (end_ : Z) : list A :=
  let len := length_ arr in
  let final := if end_ <? 0 then Z.max (len + end_) 0 else Z.min end_ len in
  firstn (Z.to_nat final) arr.

(** [arr.push(x)], on the fresh copy that [slice] returned. *)
Definition push {A : Type} (arr : list A) (x : A) : list A := arr ++ [x].

(** ** types.ts *)

Module ToolType.
Inductive t : Set :=
| NONE | SELECT | PAN | PEN | HIGHLIGHT | ERASER | SHAPE | TEXT | MAGNIFY.
End ToolType.

Module ShapeType.
Inductive t : Set := RECTANGLE | CIRCLE | LINE | ARROW.
End ShapeType.

Module ToolProperties.
Record t : Type := mk {
  color : string;
  lineWidth : number;
  opacity : number;
  fontFamily : option string;
  fontSize : option number
}.

(** [{ ...prev, lineWidth: w }] *)
Definition with_lineWidth (prev : t) (w : number) : t :=
  mk (color prev) w (opacity prev) (fontFamily prev) (fontSize prev).
End ToolProperties.

Module Annotation.
Record t : Type := mk {
  id : string;
  page : number;
  type : ToolType.t;
  points : option (list (number * number));
  bounds : option (number * number * number * number);
  text : option string;
  shapeType : option ShapeType.t;
  color : string;
  lineWidth : number;
  opacity : number;
  fontFamily : option string;
  fontSize : option number
}.
End Annotation.

(** ** DOM events, as far as the handlers inspect them *)

(** What [e.target instanceof HTMLInputElement] and
    [e.target instanceof HTMLTextAreaElement] can tell apart. *)
Inductive EventTarget : Set := HTMLInputElement | HTMLTextAreaElement | OtherTarget.

Definition isTextEntry (t : EventTarget) : bool :=
  match t with
  | HTMLInputElement | HTMLTextAreaElement => true
  | OtherTarget => false
  end.

Module KeyboardEvent.
Record t : Type := mk {
  key : string;
  ctrlKey : bool;
  metaKey : bool;
  shiftKey : bool;
  target : EventTarget
}.

Definition with_target (e : t) (tg : EventTarget) : t :=
  mk (key e) (ctrlKey e) (metaKey e) (shiftKey e) tg.
End KeyboardEvent.

Module WheelEvent.
Record t : Type := mk {
  ctrlKey : bool;
  metaKey : bool;
  deltaY : number
}.
End WheelEvent.

(** [File], as far as [loadFile] inspects it. *)
Record File : Type := mkFile { file_type : string }.

(** ** The component state *)

(** [historyStep] only ever holds array indices; it is modelled as an
    integer. *)
Record AppState : Type := mkApp {
  scale : number;
  isEditMode : bool;
  activeTool : ToolType.t;
  activeShape : ShapeType.t;
  toolProperties : ToolProperties.t;
  history : list (list Annotation.t);
  historyStep : Z
}.

(** The [useState] initial values. *)
Definition initialState : AppState :=
  {| scale := 1.0;
     isEditMode := false;
     activeTool := ToolType.PAN;
     activeShape := ShapeType.RECTANGLE;
     toolProperties :=
       ToolProperties.mk "#ef4444"%string 2 1.0 (Some "Inter"%string) (Some 16%float);
     history := [[]];
     historyStep := 0 |}.

(** [const currentAnnotations = history[historyStep];] *)
Definition currentAnnotations (c : AppState) : option (list Annotation.t) :=
  index (history c) (historyStep c).

(** ** Handlers: pending-state transformers with a log of calls *)

Inductive Call : Set :=
| PreventDefault
| Alert
| SetScale
| SetIsEditMode
| SetActiveTool
| SetActiveShape
| SetToolProperties
| SetHistory
| SetHistoryStep.

Definition Handler : Type := AppState -> list Call * AppState.

Definition ret : Handler := fun s => ([], s).

Definition seq (h k : Handler) : Handler :=
  fun s =>
    let (l1, s1) := h s in
    let (l2, s2) := k s1 in
    (l1 ++ l2, s2).

Declare Scope handler_scope.
Delimit Scope handler_scope with handler.
Bind Scope handler_scope with Handler.
Notation "h ;; k" := (seq h k) (at level 61, right associativity) : handler_scope.
Local Open Scope handler_scope.

(** A state setter accepts an updater; [val v] is the plain-value form. *)
Definition val {A : Type} (v : A) : A -> A := fun _ => v.

Definition preventDefault : Handler := fun s => ([PreventDefault], s).
Definition alert : Handler := fun s => ([Alert], s).

Definition setScale (f : number -> number) : Handler := fun s =>
  ([SetScale],
   mkApp (f (scale s)) (isEditMode s) (activeTool s) (activeShape s)
         (toolProperties s) (history s) (historyStep s)).

Definition setIsEditMode (f : bool -> bool) : Handler := fun s =>
  ([SetIsEditMode],
   mkApp (scale s) (f (isEditMode s)) (activeTool s) (activeShape s)
         (toolProperties s) (history s) (historyStep s)).

Definition setActiveTool (f : ToolType.t -> ToolType.t) : Handler := fun s =>
  ([SetActiveTool],
   mkApp (scale s) (isEditMode s) (f (activeTool s)) (activeShape s)
         (toolProperties s) (history s) (historyStep s)).

Definition setActiveShape (f : ShapeType.t -> ShapeType.t) : Handler := fun s =>
  ([SetActiveShape],
   mkApp (scale s) (isEditMode s) (activeTool s) (f (activeShape s))
         (toolProperties s) (history s) (historyStep s)).

Definition setToolProperties (f : ToolProperties.t -> ToolProperties.t) : Handler :=
  fun s =>
  ([SetToolProperties],
   mkApp (scale s) (isEditMode s) (activeTool s) (activeShape s)
         (f (toolProperties s)) (history s) (historyStep s)).

Definition setHistory
    (f : list (list Annotation.t) -> list (list Annotation.t)) : Handler := fun s =>
  ([SetHistory],
   mkApp (scale s) (isEditMode s) (activeTool s) (activeShape s)
         (toolProperties s) (f (history s)) (historyStep s)).

Definition setHistoryStep (f : Z -> Z) : Handler := fun s =>
  ([SetHistoryStep],
   mkApp (scale s) (isEditMode s) (activeTool s) (activeShape s)
         (toolProperties s) (history s) (f (historyStep s))).

(** ** The history handlers (App.tsx, lines 80-109) *)

(** The argument of [updateFn] is [history[historyStep]], which is [undefined]
    ([None]) when the step is out of range. *)
Definition UpdateFn : Type := option (list Annotation.t) -> list Annotation.t.

Definition handleAnnotationsChange (c : AppState) (updateFn : UpdateFn) : Handler :=
  let newAnnotations := updateFn (currentAnnotations c) in
  let newHistory := push (slice0 (history c) (historyStep c + 1)) newAnnotations in
  setHistory (val newHistory) ;;
  setHistoryStep (val (length_ newHistory - 1)).

Definition handleUndo (c : AppState) : Handler :=
  if 0 <? historyStep c then setHistoryStep (fun prev => prev - 1) else ret.

Definition handleRedo (c : AppState) : Handler :=
  if historyStep c <? length_ (history c) - 1
  then setHistoryStep (fun prev => prev + 1)
  else ret.

(** [confirmed] is the answer of the [confirm] dialog. *)
Definition handleClearAnnotations (c : AppState) (confirmed : bool) : Handler :=
  if confirmed then handleAnnotationsChange c (fun _ => []) else ret.

(** [loadFile], restricted to the state modelled here (the file itself, the
    page counters, the extracted text and the loading bar are view state). *)
Definition loadFile (file : File) : Handler :=
  if (file_type file =? "application/pdf")%string
  then setHistory (val [[]]) ;; setHistoryStep (val 0)
  else alert.

(** ** The edit-mode toggle (App.tsx, line 234) *)

Definition toggleEditMode (c : AppState) : Handler :=
  setIsEditMode (val (negb (isEditMode c))) ;;
  setActiveTool (val (if isEditMode c then ToolType.SELECT else ToolType.PAN)).

(** ** The keyboard dispatcher (App.tsx, lines 142-178) *)

Definition primaryModifier (e : KeyboardEvent.t) : bool :=
  KeyboardEvent.ctrlKey e || KeyboardEvent.metaKey e.

Definition toggleMagnify (c : AppState) (prev : ToolType.t) : ToolType.t :=
  match prev with
  | ToolType.MAGNIFY => if isEditMode c then ToolType.SELECT else ToolType.PAN
  | _ => ToolType.MAGNIFY
  end.

(** The [switch] over [e.key.toLowerCase()]. *)
Definition toolShortcut (k : string) : Handler :=
  if (k =? "v")%string then setActiveTool (val ToolType.SELECT)
  else if (k =? "p")%string then setActiveTool (val ToolType.PEN)
  else if (k =? "h")%string then setActiveTool (val ToolType.HIGHLIGHT)
  else if (k =? "e")%string then setActiveTool (val ToolType.ERASER)
  else if (k =? "t")%string then setActiveTool (val ToolType.TEXT)
  else if (k =? "r")%string then
    setActiveTool (val ToolType.SHAPE) ;; setActiveShape (val ShapeType.RECTANGLE)
  else if (k =? "c")%string then
    setActiveTool (val ToolType.SHAPE) ;; setActiveShape (val ShapeType.CIRCLE)
  else if (k =? "l")%string then
    setActiveTool (val ToolType.SHAPE) ;; setActiveShape (val ShapeType.LINE)
  else if (k =? "a")%string then
    setActiveTool (val ToolType.SHAPE) ;; setActiveShape (val ShapeType.ARROW)
  else if (k =? "[")%string then
    setToolProperties (fun prev =>
      ToolProperties.with_lineWidth prev
        (Math_max 1 (ToolProperties.lineWidth prev - 1)))
  else if (k =? "]")%string then
    setToolProperties (fun prev =>
      ToolProperties.with_lineWidth prev
        (Math_min 100 (ToolProperties.lineWidth prev + 1)))
  else ret.

Definition handleKeyDown (c : AppState) (e : KeyboardEvent.t) : Handler :=
  let key := KeyboardEvent.key e in
  if primaryModifier e && (key =? "z")%string then
    preventDefault ;;
    (if KeyboardEvent.shiftKey e then handleRedo c else handleUndo c)
  else if primaryModifier e && (key =? "y")%string then
    preventDefault ;; handleRedo c
  else if primaryModifier e && ((key =? "=")%string || (key =? "+")%string) then
    preventDefault ;; setScale (fun s => Math_min 4.0 (s + 0.1))
  else if primaryModifier e && (key =? "-")%string then
    preventDefault ;; setScale (fun s => Math_max 0.25 (s - 0.1))
  else if (toLowerCase key =? "m")%string
          && negb (KeyboardEvent.ctrlKey e) && negb (KeyboardEvent.metaKey e)
          && negb (isTextEntry (KeyboardEvent.target e)) then
    setActiveTool (toggleMagnify c)
  else if negb (isEditMode c) then ret
  else if isTextEntry (KeyboardEvent.target e) then ret
  else toolShortcut (toLowerCase key).

(** ** The wheel handler (App.tsx, lines 183-189) *)

Definition handleWheel (c : AppState) (e : WheelEvent.t) : Handler :=
  if WheelEvent.ctrlKey e || WheelEvent.metaKey e then
    preventDefault ;;
    (let delta : number := (- WheelEvent.deltaY e * 0.001)%float in
     setScale (fun s => Math_min 4.0 (Math_max 0.25 (s + delta))))
  else ret.

(** ** Events of the component *)

(** What can happen to the component: the DOM events it listens to, the
    callbacks it hands to its children, and the raw setters that the toolbar,
    the sidebar and the viewer receive. *)
Inductive Action : Type :=
| KeyDown (e : KeyboardEvent.t)
| Wheel (e : WheelEvent.t)
| AnnotationsChange (updateFn : UpdateFn)
| Undo
| Redo
| ClearAnnotations (confirmed : bool)
| LoadFile (file : File)
| ToggleEditMode
| ChildSetScale (v : number)
| ChildSetActiveTool (v : ToolType.t)
| ChildSetActiveShape (v : ShapeType.t)
| ChildSetProperties (v : ToolProperties.t).

Definition handler (a : Action) (c : AppState) : Handler :=
  match a with
  | KeyDown e => handleKeyDown c e
  | Wheel e => handleWheel c e
  | AnnotationsChange updateFn => handleAnnotationsChange c updateFn
  | Undo => handleUndo c
  | Redo => handleRedo c
  | ClearAnnotations confirmed => handleClearAnnotations c confirmed
  | LoadFile file => loadFile file
  | ToggleEditMode => toggleEditMode c
  | ChildSetScale v => setScale (val v)
  | ChildSetActiveTool v => setActiveTool (val v)
  | ChildSetActiveShape v => setActiveShape (val v)
  | ChildSetProperties v => setToolProperties (val v)
  end.

(** One event: the handler closed over the rendered state runs on it. *)
Definition fire (a : Action) (s : AppState) : list Call * AppState := handler a s s.

Definition step (a : Action) (s : AppState) : AppState := snd (fire a s).

Definition run (acts : list Action) (s : AppState) : AppState :=
  fold_left (fun st a => step a st) acts s.

Definition reachable (s : AppState) : Prop :=
  exists acts, run acts initialState = s.


(** * Part II: vocabulary of the statements *)

(** ** History *)

(** [0 <= historyStep < history.length] *)
Definition hist_wf (s : AppState) : Prop :=
  0 <= historyStep s < length_ (history s).

(** A pen stroke on page 1 drawn with the initial tool properties, used in
    the worked examples. *)
Definition stroke (id : string) : Annotation.t :=
  Annotation.mk id 1 ToolType.PEN (Some [(0, 0); (1, 1)]%float) None None None
                "#ef4444"%string 2 1.0 None None.

(** ** Keys *)

(** The single-key shortcuts of the [switch]. *)
Definition singleKeys : list string :=
  ["v"; "p"; "h"; "e"; "t"; "r"; "c"; "l"; "a"; "["; "]"]%string.

(** The keys of the modifier-qualified shortcuts. *)
Definition chordKeys : list string := ["z"; "y"; "="; "+"; "-"]%string.

(** The state [s] with the edit-mode flag replaced. *)
Definition with_isEditMode (s : AppState) (b : bool) : AppState :=
  snd (setIsEditMode (val b) s).

(** ** Clamped ranges *)

(** Keyboard and wheel events as the browser delivers them: [deltaY] is a
    WebIDL [double], which is never NaN. *)
Definition isInput (a : Action) : Prop :=
  match a with
  | KeyDown _ => True
  | Wheel e => is_nan (WheelEvent.deltaY e) = false
  | _ => False
  end.

(** [lo <= x <= hi] with the comparisons of JavaScript, which are false on NaN. *)
Definition between (lo hi x : number) : Prop :=
  (lo <=? x)%float = true /\ (x <=? hi)%float = true.

Definition scaleInRange (x : number) : Prop := between 0.25 4.0 x.

Definition lineWidthInRange (x : number) : Prop := between 1 100 x.

(** ** Binary64 arithmetic, after [SpecFloat] *)

Definition SFis_nan (a : spec_float) : bool :=
  match a with S754_nan => true | _ => false end.

(** What [k] right shifts of [M] hold: the quotient, and a remainder that is
    zero only if the round bit is clear. *)
Definition shifted (M k : Z) (mrs : shr_record) : Prop :=
  0 <= k /\ 0 <= shr_m mrs
  /\ exists rem, M = shr_m mrs * 2 ^ k + rem /\ 0 <= rem < 2 ^ k
                 /\ (rem = 0 -> shr_r mrs = false).

(** The result of rounding when the mantissa [m2] is kept at exponent [E]:
    a mantissa of 54 bits moves to the next binade. *)
Definition rounded (sx : bool) (m2 E : Z) : spec_float :=
  if m2 =? 0 then S754_zero sx
  else if m2 <? 2 ^ 53 then
    if E <=? emax - prec then S754_finite sx (Z.to_pos m2) E else S754_infinity sx
  else
    if E + 1 <=? emax - prec then S754_finite sx (Z.to_pos (2 ^ 52)) (E + 1)
    else S754_infinity sx.

(** Positive finite numbers. *)
Definition pos_finite (x : number) : Prop :=
  exists m e, Prim2SF x = S754_finite false m e.

(** Case analysis on the guards of a handler, in source order. *)
Ltac case_guard :=
  match goal with
  | |- context [if ?b then _ else _] => destruct b eqn:?
  end.

(** * Part II-b: the rest of [App.tsx] *)

(** ** View state: the hooks outside the engine *)

(** The hooks that the handlers below read or write.  The modal, layout and
    speech flags are toggled by one-line callbacks and are left out. *)
Record ViewState : Type := mkView {
  pdfFile : option File;
  numPages : number;
  currentPage : number;
  rotation : number;
  pdfText : string;
  isGlobalLoading : bool;
  isAiPanelOpen : bool;
  isDragging : bool;
  isPanDragging : bool;
  aiInput : string
}.

(** The [useState] initial values. *)
Definition initialView : ViewState :=
  {| pdfFile := None;
     numPages := 0;
     currentPage := 1;
     rotation := 0;
     pdfText := EmptyString;
     isGlobalLoading := false;
     isAiPanelOpen := false;
     isDragging := false;
     isPanDragging := false;
     aiInput := EmptyString |}.

(** View updates are queued like the engine's; only the state they produce
    is kept ([preventDefault], [stopPropagation] and the reset of the file
    input are DOM calls outside it). *)
Definition ViewUpdate : Type := ViewState -> ViewState.

Definition setPdfFile (f : option File -> option File) : ViewUpdate := fun v =>
  mkView (f (pdfFile v)) (numPages v) (currentPage v) (rotation v) (pdfText v)
         (isGlobalLoading v) (isAiPanelOpen v) (isDragging v) (isPanDragging v)
         (aiInput v).

Definition setNumPages (f : number -> number) : ViewUpdate := fun v =>
  mkView (pdfFile v) (f (numPages v)) (currentPage v) (rotation v) (pdfText v)
         (isGlobalLoading v) (isAiPanelOpen v) (isDragging v) (isPanDragging v)
         (aiInput v).

Definition setCurrentPage (f : number -> number) : ViewUpdate := fun v =>
  mkView (pdfFile v) (numPages v) (f (currentPage v)) (rotation v) (pdfText v)
         (isGlobalLoading v) (isAiPanelOpen v) (isDragging v) (isPanDragging v)
         (aiInput v).

Definition setRotation (f : number -> number) : ViewUpdate := fun v =>
  mkView (pdfFile v) (numPages v) (currentPage v) (f (rotation v)) (pdfText v)
         (isGlobalLoading v) (isAiPanelOpen v) (isDragging v) (isPanDragging v)
         (aiInput v).

Definition setPdfText (f : string -> string) : ViewUpdate := fun v =>
  mkView (pdfFile v) (numPages v) (currentPage v) (rotation v) (f (pdfText v))
         (isGlobalLoading v) (isAiPanelOpen v) (isDragging v) (isPanDragging v)
         (aiInput v).

Definition setIsGlobalLoading (f : bool -> bool) : ViewUpdate := fun v =>
  mkView (pdfFile v) (numPages v) (currentPage v) (rotation v) (pdfText v)
         (f (isGlobalLoading v)) (isAiPanelOpen v) (isDragging v) (isPanDragging v)
         (aiInput v).


Definition setIsDragging (f : bool -> bool) : ViewUpdate := fun v =>
  mkView (pdfFile v) (numPages v) (currentPage v) (rotation v) (pdfText v)
         (isGlobalLoading v) (isAiPanelOpen v) (f (isDragging v)) (isPanDragging v)
         (aiInput v).



(** [u1; u2] in source order. *)
Definition andThen (u1 u2 : ViewUpdate) : ViewUpdate := fun v => u2 (u1 v).

(** ** The cursor class (App.tsx, lines 43-58) *)

Definition cursorClass (tool : ToolType.t) (panDragging : bool) : string :=
  match tool with
  | ToolType.MAGNIFY => "cursor-none"
  | _ =>
    if panDragging then "cursor-grabbing-theme"
    else
      match tool with
      | ToolType.PAN => "cursor-grab-theme"
      | ToolType.SELECT => "cursor-default-theme"
      | ToolType.TEXT => "cursor-text-tool-theme"
      | ToolType.ERASER => "cursor-eraser-theme"
      | ToolType.PEN | ToolType.HIGHLIGHT | ToolType.SHAPE => "cursor-crosshair-theme"
      | _ => "cursor-default-theme"
      end
  end%string.



(** ** Asking the assistant (App.tsx, lines 74-78) *)




(** ** Page navigation (App.tsx, lines 230-231 and 277-278) *)

Definition onPrevPage : ViewUpdate :=
  setCurrentPage (fun p => Math_max 1 (p - 1)).

(** [numPages] is read from the rendered state [c]. *)
Definition onNextPage (c : ViewState) : ViewUpdate :=
  setCurrentPage (fun p => Math_min (numPages c) (p + 1)).

(** ** View buttons (App.tsx, lines 257 and 302) *)

Definition onFitScreen : Action := ChildSetScale 0.8.
Definition onFitWidth : Action := ChildSetScale 1.2.

(** [onResetView]: [setScale(1.0); setRotation(0)]. *)
Definition onResetView_scale : Action := ChildSetScale 1.0.
Definition onResetView_rotation : ViewUpdate := setRotation (val 0%float).

(** ** Loading a document (App.tsx, lines 96-139) *)

(** The view half of [loadFile]; the history half is [loadFile] above.  The
    timer that ends the loading bar is the separate callback
    [loadingTimerFired]. *)
Definition loadFile_view (file : File) : ViewUpdate :=
  if (file_type file =? "application/pdf")%string
  then
    andThen (setIsGlobalLoading (val true))
   (andThen (setPdfFile (val (Some file)))
   (andThen (setCurrentPage (val 1%float))
   (andThen (setPdfText (val EmptyString))
            (setNumPages (val 0%float)))))
  else fun v => v.

Definition loadingTimerFired : ViewUpdate := setIsGlobalLoading (val false).

(** The whole component state. *)
Definition Ui : Type := (AppState * ViewState)%type.

Definition loadFile_ui (file : File) (ui : Ui) : list Call * Ui :=
  let (s, v) := ui in
  let (calls, s') := fire (LoadFile file) s in
  (calls, (s', loadFile_view file v)).

(** [handleFileChange]: [e.target.files?.[0]] is the head of the file list. *)
Definition handleFileChange (files : list File) (ui : Ui) : list Call * Ui :=
  match files with
  | file :: _ => loadFile_ui file ui
  | [] => ([], ui)
  end.

Definition handleDragOver : ViewUpdate := setIsDragging (val true).

(** [relatedInside] is [e.currentTarget.contains(e.relatedTarget)]. *)
Definition handleDragLeave (relatedInside : bool) : ViewUpdate :=
  if negb relatedInside then setIsDragging (val false) else fun v => v.

Definition handleDrop (files : list File) (ui : Ui) : list Call * Ui :=
  let (s, v) := ui in
  let v1 := setIsDragging (val false) v in
  match files with
  | file :: _ => loadFile_ui file (s, v1)
  | [] => ([], (s, v1))
  end.

(** ** Page images for the assistant (App.tsx, line 191) *)

(** [PDFViewerHandle], as far as the synchronous getter goes; [None] is
    [null]. *)
Record PDFViewerHandle : Type := mkHandle {
  viewer_getCurrentPageImage : unit -> option string
}.

(** [viewerRef.current?.getCurrentPageImage() || null]: an absent viewer
    gives [undefined], and [undefined], [null] and the empty string are the
    falsy values that [||] replaces by [null]. *)
Definition getCurrentPageImage (viewerRef : option PDFViewerHandle) : option string :=
  match viewerRef with
  | None => None
  | Some viewer =>
    match viewer_getCurrentPageImage viewer tt with
    | None => None
    | Some EmptyString => None
    | Some image => Some image
    end
  end.

(** ** Vocabulary of the further statements *)

(** The handlers that belong to the history engine. *)
Definition isHistoryOp (a : Action) : Prop :=
  match a with
  | AnnotationsChange _ | Undo | Redo | ClearAnnotations _ | LoadFile _ => True
  | _ => False
  end.

(** The handlers that can replace the snapshot sequence. *)
Definition rewritesHistory (a : Action) : Prop :=
  match a with
  | AnnotationsChange _ | ClearAnnotations true => True
  | LoadFile file => file_type file = "application/pdf"%string
  | _ => False
  end.

(** Events under which the scale stays clamped: everything but a raw
    [setScale] with a value outside the range, given that wheel deltas are
    not NaN. *)
Definition keepsScale (a : Action) : Prop :=
  match a with
  | Wheel e => is_nan (WheelEvent.deltaY e) = false
  | ChildSetScale v => scaleInRange v
  | _ => True
  end.

(** Events under which the line width stays clamped. *)
Definition keepsLineWidth (a : Action) : Prop :=
  match a with
  | ChildSetProperties p => lineWidthInRange (ToolProperties.lineWidth p)
  | _ => True
  end.

(** The tool shortcuts of the [switch]: key, tool, and shape variant if the
    key sets one. *)
Definition toolKeys : list (string * (ToolType.t * option ShapeType.t)) :=
  [("v", (ToolType.SELECT, None));
   ("p", (ToolType.PEN, None));
   ("h", (ToolType.HIGHLIGHT, None));
   ("e", (ToolType.ERASER, None));
   ("t", (ToolType.TEXT, None));
   ("r", (ToolType.SHAPE, Some ShapeType.RECTANGLE));
   ("c", (ToolType.SHAPE, Some ShapeType.CIRCLE));
   ("l", (ToolType.SHAPE, Some ShapeType.LINE));
   ("a", (ToolType.SHAPE, Some ShapeType.ARROW))]%string.

(** The tool that leaving magnify falls back to. *)
Definition fallbackTool (s : AppState) : ToolType.t :=
  if isEditMode s then ToolType.SELECT else ToolType.PAN.

(** A finite number: neither NaN nor an infinity. *)
Definition finite (x : number) : Prop := is_finite x = true.

(** The two page buttons, and a press of one of them on the rendered view. *)
Inductive PageMove : Set := PrevPage | NextPage.

Definition pageStep (v : ViewState) (m : PageMove) : ViewState :=
  match m with
  | PrevPage => onPrevPage v
  | NextPage => onNextPage v v
  end.

(** [1 <= currentPage <= numPages] *)
Definition pageInRange (v : ViewState) : Prop :=
  between 1 (numPages v) (currentPage v).

(** * Part III: properties *)

(** ** Order on spec floats *)

Lemma SFcompare_swap (a b : spec_float) :
  SFcompare b a = option_map CompOpp (SFcompare a b).
Proof.
  destruct a as [sa | sa | | sa ma ea], b as [sb | sb | | sb mb eb];
    try reflexivity;
    try (destruct sa; reflexivity);
    try (destruct sb; reflexivity);
    try (destruct sa, sb; reflexivity).
  simpl. f_equal.
  change (Pos.compare_cont Eq mb ma) with (mb ?= ma)%positive.
  change (Pos.compare_cont Eq ma mb) with (ma ?= mb)%positive.
  rewrite (Z.compare_antisym ea eb), (Pos.compare_antisym ma mb).
  destruct sa, sb; try reflexivity;
    destruct (ea ?= eb); simpl; try reflexivity;
    destruct (ma ?= mb)%positive; reflexivity.
Qed.

Lemma SFcompare_None (a b : spec_float) :
  SFcompare a b = None <-> SFis_nan a = true \/ SFis_nan b = true.
Proof.
  destruct a as [sa | sa | | sa ma ea], b as [sb | sb | | sb mb eb]; simpl;
    intuition (try discriminate).
Qed.

Lemma SFleb_not_nan (a b : spec_float) :
  SFleb a b = true -> SFis_nan a = false /\ SFis_nan b = false.
Proof.
  unfold SFleb. destruct (SFcompare a b) eqn:E; [| discriminate].
  intros _. destruct a, b; simpl in *; try discriminate; auto.
Qed.

Lemma SFltb_false_leb (a b : spec_float) :
  SFis_nan a = false -> SFis_nan b = false ->
  SFltb a b = false -> SFleb b a = true.
Proof.
  intros Ha Hb. unfold SFltb, SFleb. rewrite (SFcompare_swap a b).
  destruct (SFcompare a b) as [[] |] eqn:E; simpl; try congruence.
  apply SFcompare_None in E. destruct E; congruence.
Qed.

Lemma SFltb_leb (a b : spec_float) : SFltb a b = true -> SFleb a b = true.
Proof. unfold SFltb, SFleb. now destruct (SFcompare a b) as [[] |]. Qed.

Lemma SFleb_refl (a : spec_float) : SFis_nan a = false -> SFleb a a = true.
Proof.
  unfold SFleb. destruct a as [s | s | | s m e]; simpl; try congruence;
    try (destruct s; reflexivity).
  intros _. rewrite Z.compare_refl.
  change (Pos.compare_cont Eq m m) with (m ?= m)%positive.
  rewrite Pos.compare_refl. now destruct s.
Qed.

Lemma SFleb_trans (a b c : spec_float) :
  SFleb a b = true -> SFleb b c = true -> SFleb a c = true.
Proof.
  unfold SFleb.
  destruct a as [sa | sa | | sa ma ea], b as [sb | sb | | sb mb eb],
           c as [sc | sc | | sc mc ec]; simpl; try congruence;
    try (destruct sa; simpl; congruence);
    try (destruct sb; simpl; congruence);
    try (destruct sc; simpl; congruence);
    try (destruct sa, sb; simpl; congruence);
    try (destruct sa, sc; simpl; congruence);
    try (destruct sb, sc; simpl; congruence);
    try (destruct sa, sb, sc; simpl; congruence).
  change (Pos.compare_cont Eq ma mb) with (ma ?= mb)%positive.
  change (Pos.compare_cont Eq mb mc) with (mb ?= mc)%positive.
  change (Pos.compare_cont Eq ma mc) with (ma ?= mc)%positive.
  destruct sa, sb, sc; simpl; try congruence;
    destruct (Z.compare_spec ea eb), (Z.compare_spec eb ec), (Z.compare_spec ea ec);
    try lia; simpl; try congruence; subst;
    destruct (Pos.compare_spec ma mb), (Pos.compare_spec mb mc), (Pos.compare_spec ma mc);
    simpl; try congruence; lia.
Qed.

(** ** Digits and shifts *)

Lemma digits2_pos_bounds (p : positive) :
  2 ^ (Zpos (digits2_pos p) - 1) <= Zpos p < 2 ^ Zpos (digits2_pos p).
Proof.
  induction p as [p IH | p IH |]; simpl digits2_pos.
  - rewrite Pos2Z.inj_succ.
    replace (Z.succ (Zpos (digits2_pos p)) - 1) with (Z.succ (Zpos (digits2_pos p) - 1)) by lia.
    rewrite !Z.pow_succ_r by lia. lia.
  - rewrite Pos2Z.inj_succ.
    replace (Z.succ (Zpos (digits2_pos p)) - 1) with (Z.succ (Zpos (digits2_pos p) - 1)) by lia.
    rewrite !Z.pow_succ_r by lia. lia.
  - simpl. lia.
Qed.

(** A number below [2^k] has at most [k] digits; one from [2^k] on has more. *)
Lemma digits2_pos_le (p : positive) (k : Z) :
  Zpos p < 2 ^ k -> Zpos (digits2_pos p) <= k.
Proof.
  intros Hp. destruct (digits2_pos_bounds p) as [Hlo _].
  destruct (Z.le_gt_cases (Zpos (digits2_pos p)) k) as [H | H]; [exact H |].
  assert (0 <= k).
  { destruct (Z.le_gt_cases 0 k); [assumption |].
    rewrite Z.pow_neg_r in Hp by lia. lia. }
  assert (2 ^ k <= 2 ^ (Zpos (digits2_pos p) - 1)) by (apply Z.pow_le_mono_r; lia).
  lia.
Qed.

Lemma digits2_pos_gt (p : positive) (k : Z) :
  0 <= k -> 2 ^ k <= Zpos p -> k < Zpos (digits2_pos p).
Proof.
  intros Hk Hp. destruct (digits2_pos_bounds p) as [_ Hhi].
  destruct (Z.le_gt_cases (Zpos (digits2_pos p)) k) as [H | H]; [| exact H].
  assert (2 ^ Zpos (digits2_pos p) <= 2 ^ k) by (apply Z.pow_le_mono_r; lia).
  lia.
Qed.

Lemma iter_xO (m d : positive) : Zpos (Pos.iter xO m d) = Zpos m * 2 ^ Zpos d.
Proof.
  induction d as [| d IH] using Pos.peano_ind.
  - simpl. lia.
  - rewrite Pos.iter_succ, Pos2Z.inj_xO, IH, Pos2Z.inj_succ, Z.pow_succ_r by lia. lia.
Qed.

Lemma shl_align_fst (m : positive) (e e' : Z) :
  e' <= e -> Zpos (fst (shl_align m e e')) = Zpos m * 2 ^ (e - e').
Proof.
  intros He. unfold shl_align.
  destruct (e' - e) as [| d | d] eqn:Hd; simpl.
  - replace (e - e') with 0 by lia. rewrite Z.pow_0_r. lia.
  - lia.
  - rewrite iter_xO. now replace (e - e') with (Zpos d) by lia.
Qed.

Section IterPos.
Context {A : Type} (f : A -> A) (P : Z -> A -> Prop).
Hypothesis P_step : forall k x, P k x -> P (k + 1) (f x).

Lemma iter_pos_invariant (p : positive) :
  forall k x, P k x -> P (k + Zpos p) (iter_pos f p x).
Proof.
  induction p as [p IH | p IH |]; intros k x Hx; simpl.
  - replace (k + Zpos p~1) with (k + 1 + Zpos p + Zpos p) by lia.
    apply IH, IH, P_step, Hx.
  - replace (k + Zpos p~0) with (k + Zpos p + Zpos p) by lia.
    apply IH, IH, Hx.
  - apply P_step, Hx.
Qed.
End IterPos.

Lemma shifted_shr_1 (M k : Z) (mrs : shr_record) :
  shifted M k mrs -> shifted M (k + 1) (shr_1 mrs).
Proof.
  destruct mrs as [m r s]. unfold shifted. cbn [shr_m shr_r shr_s].
  intros (Hk & Hm & rem & HM & Hrem & Hr).
  assert (Hpow : 2 ^ (k + 1) = 2 * 2 ^ k) by (rewrite Z.pow_add_r by lia; lia).
  assert (0 < 2 ^ k) by (apply Z.pow_pos_nonneg; lia).
  rewrite Hpow.
  destruct m as [| [p | p |] | p]; cbn [shr_1 shr_m shr_r shr_s]; try lia;
    (split; [lia |]); (split; [lia |]).
  - exists rem. split; [lia |]. split; [lia |]. auto.
  - exists (rem + 2 ^ k). split; [lia |]. split; lia.
  - exists rem. split; [lia |]. split; [lia |]. auto.
  - exists (rem + 2 ^ k). split; [lia |]. split; lia.
Qed.

Lemma shifted_shr (M : Z) (mrs : shr_record) (e n : Z) :
  shifted M 0 mrs -> 0 <= n ->
  shifted M n (fst (shr mrs e n)) /\ snd (shr mrs e n) = e + n.
Proof.
  intros H Hn. unfold shr. destruct n as [| p | p]; cbn [fst snd]; [| | lia].
  - split; [exact H | lia].
  - split; [| reflexivity].
    apply (iter_pos_invariant shr_1 (shifted M) (shifted_shr_1 M) p 0 mrs H).
Qed.

Lemma shifted_exact (M : Z) : 0 <= M -> shifted M 0 (shr_record_of_loc M loc_Exact).
Proof.
  intros HM. unfold shifted. cbn [shr_record_of_loc shr_m shr_r].
  split; [lia |]. split; [exact HM |].
  exists 0. rewrite Z.pow_0_r. split; [lia |]. split; [lia | reflexivity].
Qed.

Lemma round_nearest_even_cases (mrs : shr_record) :
  let m := round_nearest_even (shr_m mrs) (loc_of_shr_record mrs) in
  m = shr_m mrs \/ (m = shr_m mrs + 1 /\ shr_r mrs = true).
Proof.
  destruct mrs as [m [] []]; simpl; auto; destruct (Z.even m); auto.
Qed.

(** ** Rounding to binary64 *)

Lemma fexp_eq (x : Z) : fexp prec emax x = Z.max (x - 53) (-1074).
Proof. reflexivity. Qed.

Lemma shr_1_nonneg (mrs : shr_record) : 0 <= shr_m mrs -> 0 <= shr_m (shr_1 mrs).
Proof.
  destruct mrs as [[| [p | p |] | p] r s]; cbn [shr_1 shr_m]; lia.
Qed.

Lemma shr_nonneg (mrs : shr_record) (e n : Z) :
  0 <= shr_m mrs -> 0 <= shr_m (fst (shr mrs e n)).
Proof.
  intros H. unfold shr. destruct n as [| p | p]; cbn [fst]; try exact H.
  apply (iter_pos_invariant shr_1 (fun _ x => 0 <= shr_m x)
           (fun _ x => shr_1_nonneg x) p 0 mrs H).
Qed.

Lemma shr_record_of_loc_m (m : Z) (l : location) : shr_m (shr_record_of_loc m l) = m.
Proof. now destruct l as [| []]. Qed.

Lemma round_nearest_even_nonneg (m : Z) (l : location) :
  0 <= m -> 0 <= round_nearest_even m l.
Proof.
  intros H. destruct l as [| []]; simpl; try lia. destruct (Z.even m); lia.
Qed.

(** Rounding a non-negative mantissa never produces a NaN. *)
Lemma binary_round_aux_not_nan (sx : bool) (M e : Z) (l : location) :
  0 <= M -> SFis_nan (binary_round_aux prec emax sx M e l) = false.
Proof.
  intros HM. unfold binary_round_aux, shr_fexp.
  destruct (shr (shr_record_of_loc M l) e _) as [mrs1 e1] eqn:E1.
  pose proof (shr_nonneg (shr_record_of_loc M l) e
                (fexp prec emax (Zdigits2 M + e) - e)) as H1.
  rewrite E1, shr_record_of_loc_m in H1. cbn [fst] in H1. specialize (H1 HM).
  pose proof (round_nearest_even_nonneg (shr_m mrs1) (loc_of_shr_record mrs1) H1) as H2.
  set (m2 := round_nearest_even (shr_m mrs1) (loc_of_shr_record mrs1)) in *.
  destruct (shr (shr_record_of_loc m2 loc_Exact) e1 _) as [mrs2 e2] eqn:E2.
  pose proof (shr_nonneg (shr_record_of_loc m2 loc_Exact) e1
                (fexp prec emax (Zdigits2 m2 + e1) - e1)) as H3.
  rewrite E2, shr_record_of_loc_m in H3. cbn [fst] in H3. specialize (H3 H2).
  destruct (shr_m mrs2); try reflexivity; [| lia].
  now destruct (e2 <=? emax - prec).
Qed.

Lemma binary_round_aux_exact (sx : bool) (M : positive) (e : Z) :
  let E := fexp prec emax (Zpos (digits2_pos M) + e) in
  e <= E ->
  exists q rem m2,
    Zpos M = q * 2 ^ (E - e) + rem /\ 0 <= rem < 2 ^ (E - e) /\ 0 <= q
    /\ (m2 = q \/ (m2 = q + 1 /\ 0 < rem))
    /\ m2 <= 2 ^ 53
    /\ binary_round_aux prec emax sx (Zpos M) e loc_Exact = rounded sx m2 E.
Proof.
  intros E He.
  unfold binary_round_aux, shr_fexp. cbn [Zdigits2]. fold E.
  destruct (shifted_shr (Zpos M) (shr_record_of_loc (Zpos M) loc_Exact) e (E - e))
    as [Hsh He1]; [apply shifted_exact; lia | lia |].
  destruct (shr (shr_record_of_loc (Zpos M) loc_Exact) e (E - e)) as [mrs1 e1].
  cbn [fst snd] in Hsh, He1.
  replace e1 with E in * by lia. clear He1.
  destruct Hsh as (_ & Hq & rem & HM & Hrem & Hr).
  set (q := shr_m mrs1) in *.
  pose proof (round_nearest_even_cases mrs1) as Hm2. cbn zeta in Hm2. fold q in Hm2.
  set (m2 := round_nearest_even q (loc_of_shr_record mrs1)) in *.
  (* the quotient fits in 53 bits *)
  assert (Hpow : 0 < 2 ^ (E - e)) by (apply Z.pow_pos_nonneg; lia).
  assert (Hq53 : q < 2 ^ 53).
  { destruct (digits2_pos_bounds M) as [_ Hd].
    assert (2 ^ Zpos (digits2_pos M) <= 2 ^ (53 + (E - e))).
    { apply Z.pow_le_mono_r; [lia |]. unfold E. rewrite fexp_eq. lia. }
    rewrite Z.pow_add_r in H by lia.
    apply (Z.mul_lt_mono_pos_r (2 ^ (E - e))); [exact Hpow |]. lia. }
  assert (Hemin : -1074 <= E) by (unfold E; rewrite fexp_eq; lia).
  exists q, rem, m2.
  split; [exact HM |]. split; [exact Hrem |]. split; [exact Hq |].
  split.
  { destruct Hm2 as [-> | [-> Hr1]]; [now left | right].
    split; [reflexivity |].
    destruct (Z.eq_dec rem 0) as [H0 | H0]; [| lia].
    rewrite (Hr H0) in Hr1. discriminate. }
  assert (Hm2' : 0 <= m2 <= 2 ^ 53) by (destruct Hm2 as [-> | [-> _]]; lia).
  split; [lia |].
  clearbody m2. clear Hm2 HM Hrem Hr.
  unfold rounded.
  destruct (Z.eqb_spec m2 0) as [-> | Hnz].
  - (* zero *)
    cbn [Zdigits2 Z.add].
    assert (Hn : fexp prec emax E - E <= 0) by (rewrite fexp_eq; lia).
    unfold shr. destruct (fexp prec emax E - E) as [| p | p]; try lia; reflexivity.
  - destruct (Z.ltb_spec m2 (2 ^ 53)) as [Hlt | Hge].
    + (* no carry *)
      destruct m2 as [| p | p]; try lia.
      cbn [Zdigits2].
      assert (Hn : fexp prec emax (Zpos (digits2_pos p) + E) - E <= 0).
      { rewrite fexp_eq. pose proof (digits2_pos_le p 53 Hlt). lia. }
      unfold shr.
      destruct (fexp prec emax (Zpos (digits2_pos p) + E) - E) as [| n | n];
        try lia; reflexivity.
    + (* carry into the next binade *)
      assert (m2 = 2 ^ 53) by lia. subst m2.
      change (Zdigits2 (2 ^ 53)) with 54.
      replace (fexp prec emax (54 + E) - E) with 1 by (rewrite fexp_eq; lia).
      reflexivity.
Qed.

Lemma digits2_pos_iter_xO (m d : positive) :
  digits2_pos (Pos.iter xO m d) = (digits2_pos m + d)%positive.
Proof.
  induction d as [| d IH] using Pos.peano_ind.
  - simpl. lia.
  - rewrite Pos.iter_succ. cbn [digits2_pos]. rewrite IH. lia.
Qed.

(** [binary_round] first aligns the mantissa on [min ez E], then rounds. *)
Lemma binary_round_exact (sx : bool) (M : positive) (ez : Z) :
  let E := fexp prec emax (Zpos (digits2_pos M) + ez) in
  let e' := Z.min ez E in
  exists q rem m2,
    Zpos M * 2 ^ (ez - e') = q * 2 ^ (E - e') + rem
    /\ 0 <= rem < 2 ^ (E - e') /\ 0 <= q
    /\ (m2 = q \/ (m2 = q + 1 /\ 0 < rem))
    /\ m2 <= 2 ^ 53
    /\ binary_round prec emax sx M ez = rounded sx m2 E.
Proof.
  intros E e'. unfold binary_round, shl_align. fold E.
  destruct (E - ez) as [| d | d] eqn:Hd.
  - (* already aligned *)
    assert (He' : e' = ez) by (unfold e'; lia).
    assert (Hle : ez <= E) by lia.
    destruct (binary_round_aux_exact sx M ez Hle) as (q & rem & m2 & H).
    fold E in H. exists q, rem, m2.
    rewrite He', Z.sub_diag, Z.pow_0_r, Z.mul_1_r. exact H.
  - assert (He' : e' = ez) by (unfold e'; lia).
    assert (Hle : ez <= E) by lia.
    destruct (binary_round_aux_exact sx M ez Hle) as (q & rem & m2 & H).
    fold E in H. exists q, rem, m2.
    rewrite He', Z.sub_diag, Z.pow_0_r, Z.mul_1_r. exact H.
  - (* shifted left down to the exponent [E] *)
    assert (He' : e' = E) by (unfold e'; lia).
    assert (HE : fexp prec emax (Zpos (digits2_pos (Pos.iter xO M d)) + E) = E).
    { rewrite digits2_pos_iter_xO, Pos2Z.inj_add.
      replace (Zpos (digits2_pos M) + Zpos d + E) with (Zpos (digits2_pos M) + ez) by lia.
      reflexivity. }
    assert (Hle : E <= fexp prec emax (Zpos (digits2_pos (Pos.iter xO M d)) + E))
      by (rewrite HE; lia).
    destruct (binary_round_aux_exact sx (Pos.iter xO M d) E Hle)
      as (q & rem & m2 & H).
    rewrite HE in H. destruct H as (HM & Hrest).
    exists q, rem, m2. rewrite He'. rewrite iter_xO in HM.
    replace (ez - E) with (Zpos d) by lia. split; [exact HM | exact Hrest].
Qed.

Lemma canonical_mantissa_inv (m : positive) (e : Z) :
  canonical_mantissa prec emax m e = true ->
  Zpos (digits2_pos m) <= 53 /\ -1074 <= e
  /\ (-1074 < e -> Zpos (digits2_pos m) = 53)
  /\ fexp prec emax (Zpos (digits2_pos m) + e) = e.
Proof.
  unfold canonical_mantissa. intros H. apply Z.eqb_eq in H.
  pose proof H as H'. rewrite fexp_eq in H'.
  split; [lia |]. split; [lia |]. split; [lia | exact H].
Qed.

Lemma SFleb_finite_pos (m1 m2 : positive) (e1 e2 : Z) :
  e1 < e2 \/ (e1 = e2 /\ Zpos m1 <= Zpos m2) ->
  SFleb (S754_finite false m1 e1) (S754_finite false m2 e2) = true.
Proof.
  unfold SFleb, SFcompare.
  change (Pos.compare_cont Eq m1 m2) with (m1 ?= m2)%positive.
  intros [H | [-> H]].
  - destruct (Z.compare_spec e1 e2); try lia; reflexivity.
  - rewrite Z.compare_refl.
    destruct (Pos.compare_spec m1 m2); try reflexivity. lia.
Qed.

(** Rounding is monotone against a representable number below the exact
    value ... *)
Lemma binary_round_ge (M m1 : positive) (ez e1 : Z) :
  canonical_mantissa prec emax m1 e1 = true ->
  ez <= e1 ->
  Zpos m1 * 2 ^ (e1 - ez) <= Zpos M ->
  SFleb (S754_finite false m1 e1) (binary_round prec emax false M ez) = true.
Proof.
  intros Hcan Hez Hval.
  destruct (canonical_mantissa_inv m1 e1 Hcan) as (Hd1 & Hemin & Hnorm & _).
  destruct (binary_round_exact false M ez) as (q & rem & m2 & HM & Hrem & Hq & Hm2 & Hm53 & ->).
  set (E := fexp prec emax (Zpos (digits2_pos M) + ez)) in *.
  set (d := Zpos (digits2_pos M)) in *.
  set (d1 := Zpos (digits2_pos m1)) in *.
  destruct (digits2_pos_bounds M) as [HMlo HMhi]. fold d in HMlo, HMhi.
  destruct (digits2_pos_bounds m1) as [Hm1lo Hm1hi]. fold d1 in Hm1lo, Hm1hi.
  assert (HEeq : E = Z.max (d + ez - 53) (-1074)) by reflexivity.
  assert (Hdpos : 0 < d /\ 0 < d1) by (unfold d, d1; lia).
  clearbody E d d1.
  assert (Hdd : d1 + e1 <= d + ez).
  { assert (2 ^ (d1 - 1 + (e1 - ez)) < 2 ^ d).
    { rewrite Z.pow_add_r by lia.
      assert (0 < 2 ^ (e1 - ez)) by (apply Z.pow_pos_nonneg; lia). nia. }
    apply Z.pow_lt_mono_r_iff in H; lia. }
  assert (HE : e1 <= E) by lia.
  assert (Hm2q : q <= m2) by (destruct Hm2 as [-> | [-> _]]; lia).
  assert (Hqpos : 1 <= q /\ (E = e1 -> Zpos m1 <= q)).
  { destruct (Z.eq_dec E e1) as [Heq | Hne].
    - assert (Zpos m1 <= q); [| lia].
      rewrite Heq in HM, Hrem.
      replace (Z.min ez e1) with ez in HM, Hrem by lia.
      rewrite Z.sub_diag, Z.pow_0_r, Z.mul_1_r in HM.
      assert (0 < 2 ^ (e1 - ez)) by (apply Z.pow_pos_nonneg; lia). nia.
    - assert (HEn : E = d + ez - 53) by lia.
      split; [| lia].
      set (e' := Z.min ez E) in *.
      assert (0 < 2 ^ (E - e')) by (apply Z.pow_pos_nonneg; lia).
      assert (2 ^ 52 * 2 ^ (E - e') <= Zpos M * 2 ^ (ez - e')).
      { rewrite <- Z.pow_add_r by lia.
        replace (52 + (E - e')) with (d - 1 + (ez - e')) by lia.
        rewrite Z.pow_add_r by lia.
        apply Z.mul_le_mono_nonneg_r; [apply Z.pow_nonneg; lia | exact HMlo]. }
      assert (2 ^ 52 < q + 1) by nia.
      assert (0 < 2 ^ 52) by reflexivity. lia. }
  destruct Hqpos as [Hq1 Hqm].
  unfold rounded.
  destruct (Z.eqb_spec m2 0); [lia |].
  destruct (Z.ltb_spec m2 (2 ^ 53)).
  - destruct (E <=? emax - prec); [| reflexivity].
    apply SFleb_finite_pos. rewrite Z2Pos.id by lia.
    destruct (Z.eq_dec E e1); [right | left]; lia.
  - destruct (E + 1 <=? emax - prec); [| reflexivity].
    apply SFleb_finite_pos. left. lia.
Qed.

(** ... and against a representable number above it. *)
Lemma binary_round_le (M m1 : positive) (ez e1 : Z) :
  canonical_mantissa prec emax m1 e1 = true ->
  e1 <= emax - prec ->
  ez <= e1 ->
  Zpos M <= Zpos m1 * 2 ^ (e1 - ez) ->
  SFleb (binary_round prec emax false M ez) (S754_finite false m1 e1) = true.
Proof.
  intros Hcan Hmax Hez Hval.
  destruct (canonical_mantissa_inv m1 e1 Hcan) as (Hd1 & Hemin & Hnorm & _).
  destruct (binary_round_exact false M ez) as (q & rem & m2 & HM & Hrem & Hq & Hm2 & Hm53 & ->).
  set (E := fexp prec emax (Zpos (digits2_pos M) + ez)) in *.
  set (d := Zpos (digits2_pos M)) in *.
  set (d1 := Zpos (digits2_pos m1)) in *.
  destruct (digits2_pos_bounds M) as [HMlo HMhi]. fold d in HMlo, HMhi.
  destruct (digits2_pos_bounds m1) as [Hm1lo Hm1hi]. fold d1 in Hm1lo, Hm1hi.
  assert (HEeq : E = Z.max (d + ez - 53) (-1074)) by reflexivity.
  assert (Hdpos : 0 < d /\ 0 < d1) by (unfold d, d1; lia).
  clearbody E d d1.
  assert (Hdd : d + ez <= d1 + e1).
  { assert (2 ^ (d - 1) < 2 ^ (d1 + (e1 - ez))).
    { rewrite Z.pow_add_r by lia.
      assert (0 < 2 ^ (e1 - ez)) by (apply Z.pow_pos_nonneg; lia). nia. }
    apply Z.pow_lt_mono_r_iff in H; lia. }
  assert (HE : E <= e1) by lia.
  assert (Hm1_53 : Zpos m1 < 2 ^ 53).
  { assert (2 ^ d1 <= 2 ^ 53) by (apply Z.pow_le_mono_r; lia). lia. }
  assert (Hsame : E = e1 -> m2 <= Zpos m1).
  { intros Heq. rewrite Heq in HM, Hrem.
    replace (Z.min ez e1) with ez in HM, Hrem by lia.
    rewrite Z.sub_diag, Z.pow_0_r, Z.mul_1_r in HM.
    assert (0 < 2 ^ (e1 - ez)) by (apply Z.pow_pos_nonneg; lia).
    destruct Hm2 as [-> | [-> Hpos]]; nia. }
  assert (Hm2nn : 0 <= m2) by (destruct Hm2 as [-> | [-> _]]; lia).
  unfold rounded.
  destruct (Z.eqb_spec m2 0); [reflexivity |].
  destruct (Z.ltb_spec m2 (2 ^ 53)).
  - destruct (Z.leb_spec E (emax - prec)); [| lia].
    apply SFleb_finite_pos. rewrite Z2Pos.id by lia.
    destruct (Z.eq_dec E e1) as [Heq | Hne]; [right | left]; [| lia].
    split; [exact Heq | now apply Hsame].
  - assert (HltE : E < e1).
    { destruct (Z.eq_dec E e1) as [Heq | Hne]; [| lia]. specialize (Hsame Heq). lia. }
    destruct (Z.leb_spec (E + 1) (emax - prec)); [| lia].
    apply SFleb_finite_pos.
    destruct (Z.eq_dec (E + 1) e1) as [Heq | Hne]; [right | left]; [| lia].
    split; [exact Heq |].
    assert (Hd53 : d1 = 53) by (apply Hnorm; lia).
    rewrite Hd53 in Hm1lo. exact Hm1lo.
Qed.

(** ** Sums and differences of positive numbers *)

Lemma rounded_negative_le (m2 E : Z) (m1 : positive) (e1 : Z) :
  0 <= m2 -> SFleb (rounded true m2 E) (S754_finite false m1 e1) = true.
Proof.
  intros H. unfold rounded.
  destruct (m2 =? 0); [reflexivity |].
  destruct (m2 <? 2 ^ 53).
  - now destruct (E <=? emax - prec).
  - now destruct (E + 1 <=? emax - prec).
Qed.

Lemma SFadd_pos_ge (m1 m2 : positive) (e1 e2 : Z) :
  canonical_mantissa prec emax m1 e1 = true ->
  SFleb (S754_finite false m1 e1)
        (SF64add (S754_finite false m1 e1) (S754_finite false m2 e2)) = true.
Proof.
  intros Hcan. unfold SF64add, SFadd. cbn [cond_Zopp].
  set (ez := Z.min e1 e2).
  pose proof (shl_align_fst m1 e1 ez ltac:(lia)) as Ha.
  set (a := fst (shl_align m1 e1 ez)) in *.
  set (b := fst (shl_align m2 e2 ez)) in *.
  change (Zpos a + Zpos b) with (Zpos (a + b)). cbn [binary_normalize].
  apply binary_round_ge; [exact Hcan | lia |].
  rewrite Pos2Z.inj_add, <- Ha. lia.
Qed.

Lemma SFsub_pos_le (m1 m2 : positive) (e1 e2 : Z) :
  canonical_mantissa prec emax m1 e1 = true ->
  e1 <= emax - prec ->
  SFleb (SF64sub (S754_finite false m1 e1) (S754_finite false m2 e2))
        (S754_finite false m1 e1) = true.
Proof.
  intros Hcan Hmax. unfold SF64sub, SFsub. cbn [cond_Zopp].
  set (ez := Z.min e1 e2).
  pose proof (shl_align_fst m1 e1 ez ltac:(lia)) as Ha.
  set (a := fst (shl_align m1 e1 ez)) in *.
  set (b := fst (shl_align m2 e2 ez)) in *.
  destruct (Zpos a - Zpos b) as [| p | p] eqn:Hd; cbn [binary_normalize].
  - reflexivity.
  - apply binary_round_le; [exact Hcan | exact Hmax | lia |].
    rewrite <- Ha. lia.
  - destruct (binary_round_exact true p ez) as (q & rem & r & _ & _ & Hq & Hr & _ & ->).
    apply rounded_negative_le. destruct Hr as [-> | [-> _]]; lia.
Qed.

(** ** JavaScript numbers *)

Local Open Scope float_scope.

(** The arithmetic is that of JavaScript: [0.1 + 0.2] is not [0.3]. *)
Example binary64_sum :
  (0.1 + 0.2 =? 0.30000000000000004) = true /\ (0.1 + 0.2 =? 0.3) = false.
Proof. split; reflexivity. Qed.

Example Math_max_zeros :
  (get_sign (Math_max (-0) 0), get_sign (Math_max 0 (-0)),
   get_sign (Math_min (-0) 0), get_sign (Math_min 0 (-0)))
  = (false, false, true, true).
Proof. reflexivity. Qed.

Lemma is_nan_spec (x : float) : is_nan x = SFis_nan (Prim2SF x).
Proof.
  unfold is_nan. rewrite FloatAxioms.eqb_spec. unfold SFeqb.
  destruct (Prim2SF x) as [s | s | | s m e]; cbn [SFcompare SFis_nan];
    try reflexivity; try (now destruct s).
  rewrite Z.compare_refl.
  change (Pos.compare_cont Eq m m) with (m ?= m)%positive.
  rewrite Pos.compare_refl. now destruct s.
Qed.

Lemma leb_not_nan (a b : float) :
  (a <=? b) = true -> is_nan a = false /\ is_nan b = false.
Proof. rewrite FloatAxioms.leb_spec, !is_nan_spec. apply SFleb_not_nan. Qed.

Lemma leb_refl (a : float) : is_nan a = false -> (a <=? a) = true.
Proof. rewrite FloatAxioms.leb_spec, is_nan_spec. apply SFleb_refl. Qed.

Lemma leb_trans (a b c : float) :
  (a <=? b) = true -> (b <=? c) = true -> (a <=? c) = true.
Proof. rewrite !FloatAxioms.leb_spec. apply SFleb_trans. Qed.

Lemma ltb_leb (a b : float) : (a <? b) = true -> (a <=? b) = true.
Proof. rewrite FloatAxioms.ltb_spec, FloatAxioms.leb_spec. apply SFltb_leb. Qed.

Lemma ltb_false_leb (a b : float) :
  is_nan a = false -> is_nan b = false -> (a <? b) = false -> (b <=? a) = true.
Proof. rewrite FloatAxioms.ltb_spec, FloatAxioms.leb_spec, !is_nan_spec. apply SFltb_false_leb. Qed.

Lemma Math_max_spec (a b : float) :
  is_nan a = false -> is_nan b = false ->
  (Math_max a b = a \/ Math_max a b = b)
  /\ (a <=? Math_max a b) = true /\ (b <=? Math_max a b) = true.
Proof.
  intros Ha Hb. unfold Math_max. rewrite Ha, Hb. cbn [orb].
  destruct (a <? b) eqn:Hab.
  - split; [now right |]. split; [now apply ltb_leb | now apply leb_refl].
  - destruct (b <? a) eqn:Hba.
    + split; [now left |]. split; [now apply leb_refl | now apply ltb_leb].
    + destruct (get_sign a).
      * split; [now right |].
        split; [now apply ltb_false_leb | now apply leb_refl].
      * split; [now left |].
        split; [now apply leb_refl | now apply ltb_false_leb].
Qed.

Lemma Math_min_spec (a b : float) :
  is_nan a = false -> is_nan b = false ->
  (Math_min a b = a \/ Math_min a b = b)
  /\ (Math_min a b <=? a) = true /\ (Math_min a b <=? b) = true.
Proof.
  intros Ha Hb. unfold Math_min. rewrite Ha, Hb. cbn [orb].
  destruct (a <? b) eqn:Hab.
  - split; [now left |]. split; [now apply leb_refl | now apply ltb_leb].
  - destruct (b <? a) eqn:Hba.
    + split; [now right |]. split; [now apply ltb_leb | now apply leb_refl].
    + destruct (get_sign a).
      * split; [now left |].
        split; [now apply leb_refl | now apply ltb_false_leb].
      * split; [now right |].
        split; [now apply ltb_false_leb | now apply leb_refl].
Qed.

(** [Math.min(hi, Math.max(lo, y))] lies in [[lo, hi]] unless [y] is NaN. *)
Lemma clamp_in_range (lo hi y : float) :
  (lo <=? hi) = true -> is_nan y = false ->
  (lo <=? Math_min hi (Math_max lo y)) = true
  /\ (Math_min hi (Math_max lo y) <=? hi) = true.
Proof.
  intros Hlh Hy. destruct (leb_not_nan lo hi Hlh) as [Hlo Hhi].
  destruct (Math_max_spec lo y Hlo Hy) as (Hmax & Hlm & _).
  assert (Hm : is_nan (Math_max lo y) = false) by (destruct Hmax as [-> | ->]; assumption).
  destruct (Math_min_spec hi (Math_max lo y) Hhi Hm) as (Hmin & Hrh & _).
  split; [| exact Hrh].
  destruct Hmin as [-> | ->]; assumption.
Qed.

Lemma pos_finite_between (lo hi x : float) :
  pos_finite lo -> pos_finite hi ->
  (lo <=? x) = true -> (x <=? hi) = true -> pos_finite x.
Proof.
  intros (ml & el & Hlo) (mh & eh & Hhi) H1 H2.
  rewrite FloatAxioms.leb_spec in H1, H2. rewrite Hlo in H1. rewrite Hhi in H2.
  unfold pos_finite, SFleb in *.
  destruct (Prim2SF x) as [s | [] | | [] m e]; cbn [SFcompare] in H1, H2;
    try discriminate.
  eauto.
Qed.

Lemma pos_finite_valid (x : float) (m : positive) (e : Z) :
  Prim2SF x = S754_finite false m e ->
  canonical_mantissa prec emax m e = true /\ (e <= emax - prec)%Z.
Proof.
  intros Hx. pose proof (Prim2SF_valid x) as Hv. rewrite Hx in Hv.
  cbn [SpecFloat.valid_binary] in Hv. unfold bounded in Hv.
  apply andb_true_iff in Hv. destruct Hv as [Hc Hb].
  split; [exact Hc | now apply Z.leb_le].
Qed.

Lemma add_pos_ge (x c : float) : pos_finite x -> pos_finite c -> (x <=? x + c) = true.
Proof.
  intros (m & e & Hx) (mc & ec & Hc).
  rewrite FloatAxioms.leb_spec, add_spec, Hx, Hc.
  apply SFadd_pos_ge. now apply (pos_finite_valid x).
Qed.

Lemma sub_pos_le (x c : float) : pos_finite x -> pos_finite c -> (x - c <=? x) = true.
Proof.
  intros (m & e & Hx) (mc & ec & Hc).
  rewrite FloatAxioms.leb_spec, sub_spec, Hx, Hc.
  destruct (pos_finite_valid x m e Hx) as [Hcan Hmax].
  now apply SFsub_pos_le.
Qed.

(** [Math.min(hi, x + c)] and [Math.max(lo, x - c)] keep [x] in [[lo, hi]]. *)
Lemma step_up_in_range (lo hi c x : float) :
  pos_finite lo -> pos_finite hi -> pos_finite c ->
  (lo <=? x) = true -> (x <=? hi) = true ->
  (lo <=? Math_min hi (x + c)) = true /\ (Math_min hi (x + c) <=? hi) = true.
Proof.
  intros Plo Phi Pc Hlo Hhi.
  pose proof (pos_finite_between lo hi x Plo Phi Hlo Hhi) as Px.
  pose proof (add_pos_ge x c Px Pc) as Hup.
  pose proof (leb_trans _ _ _ Hlo Hup) as Hlo'.
  destruct (leb_not_nan _ _ Hlo') as [_ Hy].
  destruct (leb_not_nan _ _ Hhi) as [_ Hh].
  destruct (Math_min_spec hi (x + c) Hh Hy) as (Hmin & Hrh & _).
  split; [| exact Hrh].
  destruct Hmin as [-> | ->]; [| exact Hlo'].
  exact (leb_trans _ _ _ Hlo Hhi).
Qed.

Lemma step_down_in_range (lo hi c x : float) :
  pos_finite lo -> pos_finite hi -> pos_finite c ->
  (lo <=? x) = true -> (x <=? hi) = true ->
  (lo <=? Math_max lo (x - c)) = true /\ (Math_max lo (x - c) <=? hi) = true.
Proof.
  intros Plo Phi Pc Hlo Hhi.
  pose proof (pos_finite_between lo hi x Plo Phi Hlo Hhi) as Px.
  pose proof (sub_pos_le x c Px Pc) as Hdown.
  pose proof (leb_trans _ _ _ Hdown Hhi) as Hhi'.
  destruct (leb_not_nan _ _ Hhi') as [Hy _].
  destruct (leb_not_nan _ _ Hlo) as [Hl _].
  destruct (Math_max_spec lo (x - c) Hl Hy) as (Hmax & Hlr & _).
  split; [exact Hlr |].
  destruct Hmax as [-> | ->]; [| exact Hhi'].
  exact (leb_trans _ _ _ Hlo Hhi).
Qed.

(** A finite number plus a number that is not NaN is not NaN; likewise the
    product of two numbers that are not NaN when one is finite and not zero. *)
Lemma add_not_nan (x d : float) :
  pos_finite x -> is_nan d = false -> is_nan (x + d) = false.
Proof.
  intros (m & e & Hx). rewrite !is_nan_spec, add_spec, Hx.
  unfold SF64add, SFadd.
  destruct (Prim2SF d) as [s | s | | s md ed]; try reflexivity; try discriminate.
  intros _. unfold binary_normalize.
  destruct (_ + _)%Z; try reflexivity;
    unfold binary_round; destruct (shl_align _ _ _);
    now apply binary_round_aux_not_nan.
Qed.

Lemma mul_not_nan (d c : float) :
  is_nan d = false -> pos_finite c -> is_nan (d * c) = false.
Proof.
  intros Hd (m & e & Hc). revert Hd. rewrite !is_nan_spec, mul_spec, Hc.
  unfold SF64mul, SFmul.
  destruct (Prim2SF d) as [s | s | | s md ed]; try reflexivity; try discriminate.
  intros _. now apply binary_round_aux_not_nan.
Qed.

Lemma opp_not_nan (d : float) : is_nan d = false -> is_nan (- d) = false.
Proof.
  rewrite !is_nan_spec, opp_spec. now destruct (Prim2SF d).
Qed.

Lemma pos_finite_0_25 : pos_finite 0.25. Proof. now eexists; eexists. Qed.
Lemma pos_finite_4_0 : pos_finite 4.0. Proof. now eexists; eexists. Qed.
Lemma pos_finite_0_1 : pos_finite 0.1. Proof. now eexists; eexists. Qed.
Lemma pos_finite_0_001 : pos_finite 0.001. Proof. now eexists; eexists. Qed.
Lemma pos_finite_1 : pos_finite 1. Proof. now eexists; eexists. Qed.
Lemma pos_finite_100 : pos_finite 100. Proof. now eexists; eexists. Qed.

(** ** The clamped updates of the component *)

Lemma zoom_in_in_range (x : number) :
  scaleInRange x -> scaleInRange (Math_min 4.0 (x + 0.1)).
Proof.
  intros [Hlo Hhi].
  exact (step_up_in_range 0.25 4.0 0.1 x
           pos_finite_0_25 pos_finite_4_0 pos_finite_0_1 Hlo Hhi).
Qed.

Lemma zoom_out_in_range (x : number) :
  scaleInRange x -> scaleInRange (Math_max 0.25 (x - 0.1)).
Proof.
  intros [Hlo Hhi].
  exact (step_down_in_range 0.25 4.0 0.1 x
           pos_finite_0_25 pos_finite_4_0 pos_finite_0_1 Hlo Hhi).
Qed.

Lemma wheel_zoom_in_range (x deltaY : number) :
  scaleInRange x -> is_nan deltaY = false ->
  scaleInRange (Math_min 4.0 (Math_max 0.25 (x + - deltaY * 0.001))).
Proof.
  intros [Hlo Hhi] Hd.
  apply clamp_in_range; [reflexivity |].
  apply add_not_nan.
  - exact (pos_finite_between 0.25 4.0 x pos_finite_0_25 pos_finite_4_0 Hlo Hhi).
  - apply mul_not_nan; [now apply opp_not_nan | exact pos_finite_0_001].
Qed.

Lemma narrower_in_range (w : number) :
  lineWidthInRange w -> lineWidthInRange (Math_max 1 (w - 1)).
Proof.
  intros [Hlo Hhi].
  exact (step_down_in_range 1 100 1 w
           pos_finite_1 pos_finite_100 pos_finite_1 Hlo Hhi).
Qed.

Lemma wider_in_range (w : number) :
  lineWidthInRange w -> lineWidthInRange (Math_min 100 (w + 1)).
Proof.
  intros [Hlo Hhi].
  exact (step_up_in_range 1 100 1 w
           pos_finite_1 pos_finite_100 pos_finite_1 Hlo Hhi).
Qed.

(** Without the guard on [deltaY] the wheel update is not clamped: a NaN
    propagates through [Math.max] and [Math.min]. *)
Example wheel_zoom_nan :
  is_nan (Math_min 4.0 (Math_max 0.25 (1.0 + - nan * 0.001))) = true.
Proof. reflexivity. Qed.

Local Close Scope float_scope.

(** ** Bookkeeping lemmas *)

(** The only keys whose lower-case form is [m] are [m] and [M]. *)
Lemma toLowerCase_m (k : string) :
  toLowerCase k = "m"%string <-> k = "m"%string \/ k = "M"%string.
Proof.
  split.
  - destruct k as [| ch [| ch' rest]]; simpl; try discriminate.
    intros H. injection H as H.
    destruct ch as [[] [] [] [] [] [] [] []]; try discriminate H; auto.
  - intros [-> | ->]; reflexivity.
Qed.

Section ArrayLemmas.
Context {A : Type}.
Implicit Types (arr : list A) (x : A).

Lemma length_nonneg arr : 0 <= length_ arr.
Proof. unfold length_. lia. Qed.

Lemma length_push arr x : length_ (push arr x) = length_ arr + 1.
Proof. unfold length_, push. rewrite length_app. simpl. lia. Qed.

Lemma slice0_in_range arr n :
  0 <= n <= length_ arr -> slice0 arr n = firstn (Z.to_nat n) arr.
Proof.
  intros Hn. unfold slice0.
  destruct (Z.ltb_spec n 0) as [Hlt | _]; [lia |].
  now rewrite Z.min_l by lia.
Qed.

Lemma length_slice0 arr n : 0 <= n <= length_ arr -> length_ (slice0 arr n) = n.
Proof.
  intros Hn. rewrite slice0_in_range by assumption.
  unfold length_ in *. rewrite length_firstn. lia.
Qed.

Lemma index_push_last arr x : index (push arr x) (length_ arr) = Some x.
Proof.
  unfold index, push, length_.
  destruct (Z.leb_spec 0 (Z.of_nat (List.length arr))) as [_ | H]; [| lia].
  rewrite Nat2Z.id, nth_error_app2 by lia.
  now rewrite Nat.sub_diag.
Qed.

Lemma index_push_before arr x i :
  0 <= i < length_ arr -> index (push arr x) i = index arr i.
Proof.
  unfold index, push, length_. intros Hi.
  destruct (Z.leb_spec 0 i) as [_ | H]; [| lia].
  apply nth_error_app1. lia.
Qed.

Lemma index_firstn arr n i :
  0 <= i < Z.of_nat n -> index (firstn n arr) i = index arr i.
Proof.
  unfold index. intros Hi.
  destruct (Z.leb_spec 0 i) as [_ | H]; [| lia].
  rewrite nth_error_firstn.
  destruct (Nat.ltb_spec (Z.to_nat i) n) as [_ | H]; [reflexivity | lia].
Qed.

Lemma index_defined arr i : 0 <= i < length_ arr -> exists x, index arr i = Some x.
Proof.
  unfold index, length_. intros Hi.
  destruct (Z.leb_spec 0 i) as [_ | H]; [| lia].
  destruct (nth_error arr (Z.to_nat i)) eqn:E; [now eauto |].
  apply nth_error_None in E. lia.
Qed.
End ArrayLemmas.

(** ** The history invariant *)

Lemma hist_wf_initial : hist_wf initialState.
Proof. unfold hist_wf. simpl. unfold length_. simpl. lia. Qed.

Lemma commit_history (c : AppState) (updateFn : UpdateFn) :
  history (snd (handleAnnotationsChange c updateFn c))
  = push (slice0 (history c) (historyStep c + 1)) (updateFn (currentAnnotations c)).
Proof. reflexivity. Qed.

Lemma commit_historyStep (c : AppState) (updateFn : UpdateFn) :
  historyStep (snd (handleAnnotationsChange c updateFn c))
  = length_ (push (slice0 (history c) (historyStep c + 1))
                  (updateFn (currentAnnotations c))) - 1.
Proof. reflexivity. Qed.

Lemma hist_wf_commit (s : AppState) (updateFn : UpdateFn) :
  hist_wf s -> hist_wf (step (AnnotationsChange updateFn) s).
Proof.
  intros Hwf. unfold hist_wf, step, fire, handler in *.
  rewrite commit_history, commit_historyStep, length_push.
  rewrite length_slice0 by lia. lia.
Qed.

Lemma step_undo (s : AppState) :
  step Undo s
  = if 0 <? historyStep s
    then mkApp (scale s) (isEditMode s) (activeTool s) (activeShape s)
               (toolProperties s) (history s) (historyStep s - 1)
    else s.
Proof.
  unfold step, fire, handler, handleUndo.
  now destruct (0 <? historyStep s).
Qed.

Lemma step_redo (s : AppState) :
  step Redo s
  = if historyStep s <? length_ (history s) - 1
    then mkApp (scale s) (isEditMode s) (activeTool s) (activeShape s)
               (toolProperties s) (history s) (historyStep s + 1)
    else s.
Proof.
  unfold step, fire, handler, handleRedo.
  now destruct (historyStep s <? length_ (history s) - 1).
Qed.

Lemma hist_wf_undo (s : AppState) : hist_wf s -> hist_wf (step Undo s).
Proof.
  intros Hwf. rewrite step_undo.
  destruct (Z.ltb_spec 0 (historyStep s)); [| assumption].
  unfold hist_wf in *. simpl. lia.
Qed.

Lemma hist_wf_redo (s : AppState) : hist_wf s -> hist_wf (step Redo s).
Proof.
  intros Hwf. rewrite step_redo.
  destruct (Z.ltb_spec (historyStep s) (length_ (history s) - 1)); [| assumption].
  unfold hist_wf in *. simpl. lia.
Qed.

Lemma toolShortcut_frame (k : string) (s : AppState) :
  let s' := snd (toolShortcut k s) in
  scale s' = scale s /\ isEditMode s' = isEditMode s
  /\ history s' = history s /\ historyStep s' = historyStep s.
Proof.
  unfold toolShortcut. repeat case_guard; simpl; auto.
Qed.

Lemma keydown_frame (e : KeyboardEvent.t) (s : AppState) :
  let s' := step (KeyDown e) s in
  isEditMode s' = isEditMode s /\ history s' = history s
  /\ (historyStep s' = historyStep s \/ s' = step Undo s \/ s' = step Redo s).
Proof.
  unfold step at 1, fire, handler, handleKeyDown.
  destruct (primaryModifier e && (KeyboardEvent.key e =? "z")%string).
  { destruct (KeyboardEvent.shiftKey e).
    - rewrite step_redo. unfold handleRedo, seq, preventDefault.
      destruct (historyStep s <? length_ (history s) - 1) eqn:E; simpl;
        repeat split; auto;
        right; right; rewrite step_redo, E; reflexivity.
    - rewrite step_undo. unfold handleUndo, seq, preventDefault.
      destruct (0 <? historyStep s) eqn:E; simpl;
        repeat split; auto;
        right; left; rewrite step_undo, E; reflexivity. }
  destruct (primaryModifier e && (KeyboardEvent.key e =? "y")%string).
  { rewrite step_redo. unfold handleRedo, seq, preventDefault.
    destruct (historyStep s <? length_ (history s) - 1) eqn:E; simpl;
      repeat split; auto;
      right; right; rewrite step_redo, E; reflexivity. }
  repeat case_guard; simpl; auto.
  pose proof (toolShortcut_frame (toLowerCase (KeyboardEvent.key e)) s) as H.
  simpl in H. intuition.
Qed.

Lemma wheel_frame (e : WheelEvent.t) (s : AppState) :
  let s' := step (Wheel e) s in
  isEditMode s' = isEditMode s /\ history s' = history s
  /\ historyStep s' = historyStep s.
Proof.
  unfold step, fire, handler, handleWheel. case_guard; simpl; auto.
Qed.

Lemma hist_wf_step (a : Action) (s : AppState) : hist_wf s -> hist_wf (step a s).
Proof.
  intros Hwf. destruct a.
  - destruct (keydown_frame e s) as (_ & Hh & [Hs | [Hs | Hs]]).
    + unfold hist_wf in *. rewrite Hh, Hs. assumption.
    + rewrite Hs. now apply hist_wf_undo.
    + rewrite Hs. now apply hist_wf_redo.
  - destruct (wheel_frame e s) as (_ & Hh & Hs).
    unfold hist_wf in *. rewrite Hh, Hs. assumption.
  - now apply hist_wf_commit.
  - now apply hist_wf_undo.
  - now apply hist_wf_redo.
  - destruct confirmed.
    + now apply (hist_wf_commit s (fun _ => [])).
    + exact Hwf.
  - unfold step, fire, handler, loadFile.
    destruct (file_type file =? "application/pdf")%string; [| exact Hwf].
    unfold hist_wf, length_, val. simpl. lia.
  - exact Hwf.
  - exact Hwf.
  - exact Hwf.
  - exact Hwf.
  - exact Hwf.
Qed.

Lemma hist_wf_run (acts : list Action) (s : AppState) :
  hist_wf s -> hist_wf (run acts s).
Proof.
  revert s. induction acts as [| a acts IH]; intros s Hwf; simpl.
  - exact Hwf.
  - apply IH. now apply hist_wf_step.
Qed.

Lemma reachable_hist_wf (s : AppState) : reachable s -> hist_wf s.
Proof.
  intros [acts <-]. apply hist_wf_run, hist_wf_initial.
Qed.

Lemma reachable_initial : reachable initialState.
Proof. now exists []. Qed.

Lemma reachable_step (a : Action) (s : AppState) :
  reachable s -> reachable (step a s).
Proof.
  intros [acts <-]. exists (acts ++ [a]).
  unfold run. now rewrite fold_left_app.
Qed.

(** ** Edit mode *)

(** C1 (as the code behaves).  [toggleEditMode] flips [isEditMode] and, in the
    same batch of updates, sets [activeTool] from the flag of the rendered
    state, i.e. the flag _before_ the flip: entering edit mode (false -> true)
    yields [PAN] and leaving it (true -> false) yields [SELECT], whatever the
    tool was.  Nothing else changes. *)
Theorem toggleEditMode_tool_from_old_flag (s : AppState) :
  let s' := step ToggleEditMode s in
  isEditMode s' = negb (isEditMode s)
  /\ activeTool s' = (if isEditMode s then ToolType.SELECT else ToolType.PAN)
  /\ fst (fire ToggleEditMode s) = [SetIsEditMode; SetActiveTool]
  /\ scale s' = scale s /\ activeShape s' = activeShape s
  /\ toolProperties s' = toolProperties s
  /\ history s' = history s /\ historyStep s' = historyStep s.
Proof. simpl. repeat split. Qed.

(** Entering edit mode from the initial state with the pen picked in the
    toolbar: the flag is on and the tool is [PAN], not [SELECT]. *)
Example toggleEditMode_enter_from_pen :
  let s := step (ChildSetActiveTool ToolType.PEN) initialState in
  isEditMode s = false
  /\ isEditMode (step ToggleEditMode s) = true
  /\ activeTool (step ToggleEditMode s) = ToolType.PAN.
Proof. simpl. repeat split. Qed.

(** ** History *)

(** C2.  In a state with [0 <= historyStep < history.length], committing keeps
    the snapshots at indices [0 .. historyStep], appends the new set and moves
    [historyStep] to the new last index; right after it redo does nothing and
    [currentAnnotations] is the committed set. *)
Theorem commit_truncates_appends_and_moves_to_tail
    (s : AppState) (updateFn : UpdateFn) :
  hist_wf s ->
  let s' := step (AnnotationsChange updateFn) s in
  let committed := updateFn (currentAnnotations s) in
  history s' = firstn (S (Z.to_nat (historyStep s))) (history s) ++ [committed]
  /\ (forall i, 0 <= i <= historyStep s -> index (history s') i = index (history s) i)
  /\ length_ (history s') = historyStep s + 2
  /\ historyStep s' = historyStep s + 1
  /\ historyStep s' = length_ (history s') - 1
  /\ fire Redo s' = ([], s')
  /\ currentAnnotations s' = Some committed.
Proof.
  intros Hwf s' committed. unfold hist_wf in Hwf.
  assert (Hhist : history s'
                  = push (firstn (S (Z.to_nat (historyStep s))) (history s)) committed).
  { unfold s', step, fire, handler. rewrite commit_history.
    rewrite slice0_in_range by lia.
    now replace (Z.to_nat (historyStep s + 1)) with (S (Z.to_nat (historyStep s))) by lia. }
  assert (Hlen : length_ (firstn (S (Z.to_nat (historyStep s))) (history s))
                 = historyStep s + 1).
  { unfold length_ in *. rewrite length_firstn. lia. }
  assert (Hstep : historyStep s' = historyStep s + 1).
  { unfold s', step, fire, handler. rewrite commit_historyStep, length_push.
    rewrite length_slice0 by lia. lia. }
  assert (Hlen' : length_ (history s') = historyStep s + 2).
  { rewrite Hhist, length_push, Hlen. lia. }
  clearbody s' committed.
  repeat split.
  - exact Hhist.
  - intros i Hi. rewrite Hhist, index_push_before by lia.
    apply index_firstn. lia.
  - exact Hlen'.
  - exact Hstep.
  - lia.
  - unfold fire, handler, handleRedo.
    destruct (Z.ltb_spec (historyStep s') (length_ (history s') - 1)); [lia | reflexivity].
  - unfold currentAnnotations. rewrite Hstep, Hhist, <- Hlen.
    apply index_push_last.
Qed.

(** The scenario of the specification: from the history [[ [] ]], commit [{A}],
    commit [{A,B}], undo, commit [{A,C}]; the sequence is then
    [[ []; {A}; {A,C} ]] at step 2, and redo does nothing. *)
Lemma commit_truncates_appends_and_moves_to_tail_witness :
  let a := stroke "A" in
  let b := stroke "B" in
  let c := stroke "C" in
  let acts := [AnnotationsChange (fun _ => [a]);
               AnnotationsChange (fun _ => [a; b]);
               Undo] in
  let s := run acts initialState in
  hist_wf s
  /\ history (step (AnnotationsChange (fun _ => [a; c])) s) = [[]; [a]; [a; c]]
  /\ historyStep (step (AnnotationsChange (fun _ => [a; c])) s) = 2
  /\ fire Redo (step (AnnotationsChange (fun _ => [a; c])) s)
     = ([], step (AnnotationsChange (fun _ => [a; c])) s).
Proof.
  intros a b c acts s.
  assert (Hwf : hist_wf s) by (unfold hist_wf, length_; simpl; lia).
  pose proof (commit_truncates_appends_and_moves_to_tail s (fun _ => [a; c]) Hwf)
    as (Hh & _ & _ & Hs & _ & Hr & _).
  split; [exact Hwf |].
  split; [exact Hh |].
  split; [exact Hs | exact Hr].
Defined.

(** C3.  In every reachable state, undo does nothing at step 0 and otherwise
    lowers [historyStep] by one; redo does nothing at the last index and
    otherwise raises it by one; both are total, leave [history] (and every
    other field) untouched, and keep the step inside the sequence. *)
Theorem undo_redo_boundaries (s : AppState) :
  reachable s ->
  (historyStep s = 0 -> fire Undo s = ([], s))
  /\ (historyStep s <> 0 ->
      fst (fire Undo s) = [SetHistoryStep]
      /\ historyStep (step Undo s) = historyStep s - 1)
  /\ (historyStep s = length_ (history s) - 1 -> fire Redo s = ([], s))
  /\ (historyStep s <> length_ (history s) - 1 ->
      fst (fire Redo s) = [SetHistoryStep]
      /\ historyStep (step Redo s) = historyStep s + 1)
  /\ (forall a, a = Undo \/ a = Redo ->
      history (step a s) = history s
      /\ scale (step a s) = scale s /\ isEditMode (step a s) = isEditMode s
      /\ activeTool (step a s) = activeTool s /\ activeShape (step a s) = activeShape s
      /\ toolProperties (step a s) = toolProperties s
      /\ hist_wf (step a s)).
Proof.
  intros Hr. pose proof (reachable_hist_wf s Hr) as Hwf.
  unfold hist_wf in Hwf.
  repeat split.
  - intros H0. unfold fire, handler, handleUndo. now rewrite H0.
  - unfold fire, handler, handleUndo.
    destruct (Z.ltb_spec 0 (historyStep s)); [reflexivity | lia].
  - rewrite step_undo.
    destruct (Z.ltb_spec 0 (historyStep s)); [reflexivity | lia].
  - intros Hl. unfold fire, handler, handleRedo.
    destruct (Z.ltb_spec (historyStep s) (length_ (history s) - 1)); [lia | reflexivity].
  - unfold fire, handler, handleRedo.
    destruct (Z.ltb_spec (historyStep s) (length_ (history s) - 1)); [reflexivity | lia].
  - rewrite step_redo.
    destruct (Z.ltb_spec (historyStep s) (length_ (history s) - 1)); [reflexivity | lia].
  - destruct H as [-> | ->]; [rewrite step_undo | rewrite step_redo];
      case_guard; reflexivity.
  - destruct H as [-> | ->]; [rewrite step_undo | rewrite step_redo];
      case_guard; reflexivity.
  - destruct H as [-> | ->]; [rewrite step_undo | rewrite step_redo];
      case_guard; reflexivity.
  - destruct H as [-> | ->]; [rewrite step_undo | rewrite step_redo];
      case_guard; reflexivity.
  - destruct H as [-> | ->]; [rewrite step_undo | rewrite step_redo];
      case_guard; reflexivity.
  - destruct H as [-> | ->]; [rewrite step_undo | rewrite step_redo];
      case_guard; reflexivity.
  - destruct H as [-> | ->]; [apply hist_wf_undo | apply hist_wf_redo]; exact Hwf.
  - destruct H as [-> | ->]; [apply hist_wf_undo | apply hist_wf_redo]; exact Hwf.
Qed.

Lemma undo_redo_boundaries_witness :
  reachable initialState
  /\ fire Undo initialState = ([], initialState)
  /\ fire Redo initialState = ([], initialState).
Proof.
  pose proof (undo_redo_boundaries initialState reachable_initial)
    as (Hu & _ & Hr & _).
  split; [exact reachable_initial |].
  split; [apply Hu | apply Hr]; reflexivity.
Defined.

(** C4.  With [0 < historyStep < history.length], undo followed by redo gives
    back the state, hence the [currentAnnotations] seen before the undo (a
    defined snapshot). *)
Theorem undo_then_redo_restores_current (s : AppState) :
  hist_wf s -> 0 < historyStep s ->
  step Redo (step Undo s) = s
  /\ currentAnnotations (step Redo (step Undo s)) = currentAnnotations s
  /\ exists set, currentAnnotations s = Some set.
Proof.
  intros Hwf Hpos. unfold hist_wf in Hwf.
  assert (Hrt : step Redo (step Undo s) = s).
  { rewrite step_undo.
    destruct (Z.ltb_spec 0 (historyStep s)); [| lia].
    rewrite step_redo. simpl.
    destruct (Z.ltb_spec (historyStep s - 1) (length_ (history s) - 1)); [| lia].
    destruct s; simpl. f_equal. lia. }
  split; [exact Hrt |].
  split; [now rewrite Hrt |].
  apply index_defined. exact Hwf.
Qed.

Lemma undo_then_redo_restores_current_witness :
  let a := stroke "A" in
  let s := step (AnnotationsChange (fun _ => [a])) initialState in
  currentAnnotations (step Redo (step Undo s)) = Some [a].
Proof.
  intros a s.
  assert (Hwf : hist_wf s) by (unfold hist_wf, length_; simpl; unfold val; simpl; lia).
  assert (Hpos : 0 < historyStep s) by (simpl; unfold val; simpl; lia).
  destruct (undo_then_redo_restores_current s Hwf Hpos) as (_ & -> & _).
  reflexivity.
Defined.

(** ** The keyboard dispatcher *)

Lemma no_modifier (e : KeyboardEvent.t) :
  KeyboardEvent.ctrlKey e = false -> KeyboardEvent.metaKey e = false ->
  primaryModifier e = false.
Proof. unfold primaryModifier. now intros -> ->. Qed.

(** C5.  An [m] (or [M]) key press with neither ctrl nor meta held and the
    focus outside text inputs and textareas makes exactly one [setActiveTool]
    call: a tool other than [MAGNIFY] becomes [MAGNIFY], in and out of edit
    mode; [MAGNIFY] becomes [SELECT] in edit mode and [PAN] outside it.  No
    other field changes. *)
Theorem m_key_toggles_magnify (e : KeyboardEvent.t) (s : AppState) :
  toLowerCase (KeyboardEvent.key e) = "m"%string ->
  KeyboardEvent.ctrlKey e = false ->
  KeyboardEvent.metaKey e = false ->
  isTextEntry (KeyboardEvent.target e) = false ->
  let s' := step (KeyDown e) s in
  fst (fire (KeyDown e) s) = [SetActiveTool]
  /\ (activeTool s <> ToolType.MAGNIFY -> activeTool s' = ToolType.MAGNIFY)
  /\ (activeTool s = ToolType.MAGNIFY ->
      activeTool s' = (if isEditMode s then ToolType.SELECT else ToolType.PAN))
  /\ scale s' = scale s /\ isEditMode s' = isEditMode s
  /\ activeShape s' = activeShape s /\ toolProperties s' = toolProperties s
  /\ history s' = history s /\ historyStep s' = historyStep s.
Proof.
  intros Hkey Hctrl Hmeta Hfocus.
  unfold step, fire, handler, handleKeyDown.
  rewrite (no_modifier e Hctrl Hmeta), Hkey, Hctrl, Hmeta, Hfocus. simpl.
  repeat split.
  - intros Htool. destruct (activeTool s); try reflexivity. now elim Htool.
  - now intros ->.
Qed.

(** The scenario of the specification: with the pen active and edit mode off,
    [m] gives [MAGNIFY] and a second [m] gives [PAN]. *)
Lemma m_key_toggles_magnify_witness :
  let m := KeyboardEvent.mk "m" false false false OtherTarget in
  let s := step (ChildSetActiveTool ToolType.PEN) initialState in
  activeTool (step (KeyDown m) s) = ToolType.MAGNIFY
  /\ activeTool (step (KeyDown m) (step (KeyDown m) s)) = ToolType.PAN.
Proof.
  intros m s.
  split.
  - apply (m_key_toggles_magnify m s); try reflexivity. discriminate.
  - apply (m_key_toggles_magnify m (step (KeyDown m) s)); reflexivity.
Defined.

(** Undo and redo make at most one call, [setHistoryStep], and touch no other
    field. *)
Lemma history_op_frame (op : Action) (s : AppState) :
  op = Undo \/ op = Redo ->
  (fst (fire op s) = [] \/ fst (fire op s) = [SetHistoryStep])
  /\ scale (step op s) = scale s /\ isEditMode (step op s) = isEditMode s
  /\ activeTool (step op s) = activeTool s /\ activeShape (step op s) = activeShape s
  /\ toolProperties (step op s) = toolProperties s
  /\ history (step op s) = history s.
Proof.
  intros [-> | ->]; unfold step, fire, handler, handleUndo, handleRedo;
    case_guard; simpl; auto 10.
Qed.

(** C6.  With ctrl or meta held, key [z] calls [preventDefault] and then
    exactly [handleUndo], or exactly [handleRedo] when shift is held too; key
    [y] calls [preventDefault] and then exactly [handleRedo].  The handler
    returns there: the calls and the state are those of that one operation,
    so nothing but [historyStep] can change. *)
Theorem chord_z_y_fires_one_history_operation
    (e : KeyboardEvent.t) (s : AppState) (op : Action) :
  primaryModifier e = true ->
  (KeyboardEvent.key e = "z"%string
   /\ op = (if KeyboardEvent.shiftKey e then Redo else Undo))
  \/ (KeyboardEvent.key e = "y"%string /\ op = Redo) ->
  let s' := step (KeyDown e) s in
  fire (KeyDown e) s = (PreventDefault :: fst (fire op s), step op s)
  /\ (fst (fire op s) = [] \/ fst (fire op s) = [SetHistoryStep])
  /\ scale s' = scale s /\ isEditMode s' = isEditMode s
  /\ activeTool s' = activeTool s /\ activeShape s' = activeShape s
  /\ toolProperties s' = toolProperties s
  /\ history s' = history s.
Proof.
  intros Hmod Hkey s'.
  assert (Hfire : fire (KeyDown e) s = (PreventDefault :: fst (fire op s), step op s)).
  { unfold step, fire, handler at 1, handleKeyDown.
    destruct Hkey as [[Hkey ->] | [Hkey ->]]; rewrite Hmod, Hkey; simpl.
    - unfold seq, preventDefault.
      destruct (KeyboardEvent.shiftKey e); simpl.
      + now destruct (handleRedo s s).
      + now destruct (handleUndo s s).
    - unfold seq, preventDefault. now destruct (handleRedo s s). }
  assert (Hop : op = Undo \/ op = Redo).
  { destruct Hkey as [[_ ->] | [_ ->]]; [destruct (KeyboardEvent.shiftKey e) |]; auto. }
  assert (Hs' : s' = step op s) by (unfold s', step at 1; now rewrite Hfire).
  rewrite Hs'. split; [exact Hfire |].
  exact (history_op_frame op s Hop).
Qed.

(** Ctrl+shift+z after a commit and an undo redoes; nothing else is called. *)
Lemma chord_z_y_fires_one_history_operation_witness :
  let e := KeyboardEvent.mk "z" true false true OtherTarget in
  let s := run [AnnotationsChange (fun _ => [stroke "A"]); Undo] initialState in
  fire (KeyDown e) s = ([PreventDefault; SetHistoryStep], step Redo s)
  /\ historyStep (step (KeyDown e) s) = 1.
Proof.
  intros e s.
  assert (Hmod : primaryModifier e = true) by reflexivity.
  destruct (chord_z_y_fires_one_history_operation e s Redo Hmod) as (Hfire & _).
  { left. split; reflexivity. }
  split.
  - rewrite Hfire. reflexivity.
  - unfold step at 1. rewrite Hfire. reflexivity.
Defined.

(** C7.  With edit mode off, or with the focus in a text input or textarea,
    a key whose lower-case form is one of [v p h e t r c l a [ ]] makes no
    call at all: the state, and with it [activeTool], [activeShape] and
    [toolProperties], is unchanged.  Modifiers make no difference. *)
Theorem gated_single_keys_do_nothing (e : KeyboardEvent.t) (s : AppState) :
  In (toLowerCase (KeyboardEvent.key e)) singleKeys ->
  isEditMode s = false \/ isTextEntry (KeyboardEvent.target e) = true ->
  fire (KeyDown e) s = ([], s)
  /\ activeTool (step (KeyDown e) s) = activeTool s
  /\ activeShape (step (KeyDown e) s) = activeShape s
  /\ toolProperties (step (KeyDown e) s) = toolProperties s.
Proof.
  intros Hkey Hgate.
  assert (Hfire : fire (KeyDown e) s = ([], s)).
  { unfold fire, handler, handleKeyDown.
    destruct (String.eqb_spec (KeyboardEvent.key e) "z") as [E | _];
      [rewrite E in Hkey; simpl in Hkey; intuition discriminate |].
    destruct (String.eqb_spec (KeyboardEvent.key e) "y") as [E | _];
      [rewrite E in Hkey; simpl in Hkey; intuition discriminate |].
    destruct (String.eqb_spec (KeyboardEvent.key e) "=") as [E | _];
      [rewrite E in Hkey; simpl in Hkey; intuition discriminate |].
    destruct (String.eqb_spec (KeyboardEvent.key e) "+") as [E | _];
      [rewrite E in Hkey; simpl in Hkey; intuition discriminate |].
    destruct (String.eqb_spec (KeyboardEvent.key e) "-") as [E | _];
      [rewrite E in Hkey; simpl in Hkey; intuition discriminate |].
    destruct (String.eqb_spec (toLowerCase (KeyboardEvent.key e)) "m") as [E | _];
      [rewrite E in Hkey; simpl in Hkey; intuition discriminate |].
    rewrite !andb_false_r. simpl.
    destruct Hgate as [-> | ->]; simpl; [reflexivity |].
    now destruct (isEditMode s). }
  unfold step. rewrite Hfire. auto.
Qed.

(** The scenario of the specification: in edit mode with the pen active and
    the focus in a text input, [e] changes nothing. *)
Lemma gated_single_keys_do_nothing_witness :
  let e := KeyboardEvent.mk "e" false false false HTMLInputElement in
  let s := run [ToggleEditMode; ChildSetActiveTool ToolType.PEN] initialState in
  isEditMode s = true
  /\ fire (KeyDown e) s = ([], s)
  /\ activeTool (step (KeyDown e) s) = ToolType.PEN.
Proof.
  intros e s.
  destruct (gated_single_keys_do_nothing e s) as (Hfire & Htool & _).
  - simpl. tauto.
  - right. reflexivity.
  - split; [reflexivity |]. split; [exact Hfire |]. rewrite Htool. reflexivity.
Defined.

Lemma toolShortcut_other (k : string) : In k singleKeys \/ toolShortcut k = ret.
Proof.
  unfold toolShortcut, singleKeys.
  repeat match goal with
         | |- context [String.eqb k ?c] =>
             destruct (String.eqb_spec k c) as [-> | ?]; [left; simpl; tauto |]
         end.
  now right.
Qed.

(** The dispatcher at a chord: the guard taken, as an equation of handlers. *)
Lemma handleKeyDown_chord (c : AppState) (e : KeyboardEvent.t) :
  primaryModifier e = true ->
  (KeyboardEvent.key e = "z"%string ->
   handleKeyDown c e
   = (preventDefault ;; (if KeyboardEvent.shiftKey e then handleRedo c else handleUndo c)))
  /\ (KeyboardEvent.key e = "y"%string ->
      handleKeyDown c e = (preventDefault ;; handleRedo c))
  /\ (KeyboardEvent.key e = "="%string \/ KeyboardEvent.key e = "+"%string ->
      handleKeyDown c e
      = (preventDefault ;; setScale (fun x => Math_min 4.0 (x + 0.1))))
  /\ (KeyboardEvent.key e = "-"%string ->
      handleKeyDown c e
      = (preventDefault ;; setScale (fun x => Math_max 0.25 (x - 0.1)))).
Proof.
  intros Hmod. unfold handleKeyDown. rewrite Hmod.
  repeat split.
  - now intros ->.
  - now intros ->.
  - now intros [-> | ->].
  - now intros ->.
Qed.

Lemma seq_preventDefault (h : Handler) (s : AppState) :
  (preventDefault ;; h) s = (PreventDefault :: fst (h s), snd (h s)).
Proof. unfold seq, preventDefault. now destruct (h s). Qed.

Lemma history_op_edit_mode (c : AppState) (b : bool) :
  handleUndo (with_isEditMode c b) (with_isEditMode c b)
  = (fst (handleUndo c c), with_isEditMode (snd (handleUndo c c)) b)
  /\ handleRedo (with_isEditMode c b) (with_isEditMode c b)
     = (fst (handleRedo c c), with_isEditMode (snd (handleRedo c c)) b).
Proof.
  unfold handleUndo, handleRedo. simpl.
  split; case_guard; reflexivity.
Qed.

(** C10.  With ctrl or meta held and key [z], [y], [=], [+] or [-], the
    dispatcher calls [preventDefault] and performs the undo, redo or zoom
    operation of that key, and the outcome does not depend on the focus
    target nor on the edit-mode flag: it is the same for a text input or a
    textarea as for any other target, with edit mode off as with it on.
    Conversely, a key event whose outcome depends on the target is either an
    [m]/[M] press without ctrl and meta, or a single-key shortcut in edit
    mode. *)
Theorem chords_are_not_focus_gated (e : KeyboardEvent.t) (s : AppState) :
  (primaryModifier e = true -> In (KeyboardEvent.key e) chordKeys ->
   let key := KeyboardEvent.key e in
   let s' := step (KeyDown e) s in
   hd_error (fst (fire (KeyDown e) s)) = Some PreventDefault
   /\ (key = "z"%string ->
       s' = step (if KeyboardEvent.shiftKey e then Redo else Undo) s)
   /\ (key = "y"%string -> s' = step Redo s)
   /\ (key = "="%string \/ key = "+"%string ->
       s' = snd (setScale (fun x => Math_min 4.0 (x + 0.1)) s))
   /\ (key = "-"%string ->
       s' = snd (setScale (fun x => Math_max 0.25 (x - 0.1)) s))
   /\ (forall tg, fire (KeyDown (KeyboardEvent.with_target e tg)) s
                  = fire (KeyDown e) s)
   /\ (forall b, fire (KeyDown e) (with_isEditMode s b)
                 = (fst (fire (KeyDown e) s), with_isEditMode s' b)))
  /\ (forall tg1 tg2,
        fire (KeyDown (KeyboardEvent.with_target e tg1)) s
        <> fire (KeyDown (KeyboardEvent.with_target e tg2)) s ->
        (toLowerCase (KeyboardEvent.key e) = "m"%string
         /\ KeyboardEvent.ctrlKey e = false /\ KeyboardEvent.metaKey e = false)
        \/ (isEditMode s = true
            /\ In (toLowerCase (KeyboardEvent.key e)) singleKeys)).
Proof.
  split.
  - intros Hmod Hin key s'. subst key s'.
    unfold step, fire, handler.
    pose proof (handleKeyDown_chord s e Hmod) as (Hz & Hy & Hp & Hm).
    pose proof (fun b => handleKeyDown_chord (with_isEditMode s b) e Hmod)
      as Hedit.
    pose proof (fun tg => handleKeyDown_chord s (KeyboardEvent.with_target e tg) Hmod)
      as Htg.
    pose proof (history_op_edit_mode s) as Hops.
    split; [| split; [| split; [| split; [| split; [| split]]]]].
    + destruct Hin as [Hk | [Hk | [Hk | [Hk | [Hk | []]]]]]; symmetry in Hk.
      * rewrite (Hz Hk), seq_preventDefault. reflexivity.
      * rewrite (Hy Hk), seq_preventDefault. reflexivity.
      * rewrite (Hp (or_introl Hk)), seq_preventDefault. reflexivity.
      * rewrite (Hp (or_intror Hk)), seq_preventDefault. reflexivity.
      * rewrite (Hm Hk), seq_preventDefault. reflexivity.
    + intros Hk. rewrite (Hz Hk), seq_preventDefault.
      now destruct (KeyboardEvent.shiftKey e).
    + intros Hk. rewrite (Hy Hk), seq_preventDefault. reflexivity.
    + intros Hk. rewrite (Hp Hk), seq_preventDefault. reflexivity.
    + intros Hk. rewrite (Hm Hk), seq_preventDefault. reflexivity.
    + intros tg. destruct (Htg tg) as (Hz' & Hy' & Hp' & Hm').
      destruct Hin as [Hk | [Hk | [Hk | [Hk | [Hk | []]]]]]; symmetry in Hk.
      * rewrite (Hz Hk), (Hz' Hk). reflexivity.
      * rewrite (Hy Hk), (Hy' Hk). reflexivity.
      * rewrite (Hp (or_introl Hk)), (Hp' (or_introl Hk)). reflexivity.
      * rewrite (Hp (or_intror Hk)), (Hp' (or_intror Hk)). reflexivity.
      * rewrite (Hm Hk), (Hm' Hk). reflexivity.
    + intros b. destruct (Hedit b) as (Hz' & Hy' & Hp' & Hm').
      destruct (Hops b) as (Hu & Hr).
      destruct Hin as [Hk | [Hk | [Hk | [Hk | [Hk | []]]]]]; symmetry in Hk.
      * rewrite (Hz Hk), (Hz' Hk), !seq_preventDefault.
        destruct (KeyboardEvent.shiftKey e); [rewrite Hr | rewrite Hu]; reflexivity.
      * rewrite (Hy Hk), (Hy' Hk), !seq_preventDefault, Hr. reflexivity.
      * rewrite (Hp (or_introl Hk)), (Hp' (or_introl Hk)). reflexivity.
      * rewrite (Hp (or_intror Hk)), (Hp' (or_intror Hk)). reflexivity.
      * rewrite (Hm Hk), (Hm' Hk). reflexivity.
  - intros tg1 tg2 Hdiff.
    destruct e as [key ctrl meta shift tg0].
    unfold KeyboardEvent.with_target, fire, handler, handleKeyDown, primaryModifier
      in Hdiff.
    simpl in Hdiff |- *.
    destruct ((ctrl || meta) && (key =? "z")%string); [now elim Hdiff |].
    destruct ((ctrl || meta) && (key =? "y")%string); [now elim Hdiff |].
    destruct ((ctrl || meta) && ((key =? "=")%string || (key =? "+")%string));
      [now elim Hdiff |].
    destruct ((ctrl || meta) && (key =? "-")%string); [now elim Hdiff |].
    destruct (String.eqb_spec (toLowerCase key) "m") as [Hm | Hm].
    + destruct ctrl; [simpl in Hdiff | destruct meta; [simpl in Hdiff | now left]].
      * right. destruct (isEditMode s); [| now elim Hdiff].
        split; [reflexivity |].
        destruct (toolShortcut_other (toLowerCase key)) as [Hk | Hk]; [exact Hk |].
        rewrite Hk in Hdiff. exfalso. apply Hdiff.
        now destruct (isTextEntry tg1), (isTextEntry tg2).
      * right. destruct (isEditMode s); [| now elim Hdiff].
        split; [reflexivity |].
        destruct (toolShortcut_other (toLowerCase key)) as [Hk | Hk]; [exact Hk |].
        rewrite Hk in Hdiff. exfalso. apply Hdiff.
        now destruct (isTextEntry tg1), (isTextEntry tg2).
    + right. simpl in Hdiff.
      destruct (isEditMode s); [| now elim Hdiff].
      split; [reflexivity |].
      destruct (toolShortcut_other (toLowerCase key)) as [Hk | Hk]; [exact Hk |].
      rewrite Hk in Hdiff. exfalso. apply Hdiff.
      now destruct (isTextEntry tg1), (isTextEntry tg2).
Qed.

(** [ctrl+=] with the focus in a textarea and edit mode off still zooms; and a
    [v] press in edit mode is an event whose outcome depends on the target. *)
Lemma chords_are_not_focus_gated_witness :
  let zoom := KeyboardEvent.mk "=" true false false HTMLTextAreaElement in
  let v := KeyboardEvent.mk "v" false false false OtherTarget in
  let editing := step ToggleEditMode initialState in
  (isEditMode initialState = false
   /\ step (KeyDown zoom) initialState
      = snd (setScale (fun x => Math_min 4.0 (x + 0.1)) initialState))
  /\ (isEditMode editing = true /\ In (toLowerCase (KeyboardEvent.key v)) singleKeys).
Proof.
  intros zoom v editing. split.
  - destruct (chords_are_not_focus_gated zoom initialState) as (Hchord & _).
    destruct Hchord as (_ & _ & _ & Hzoom & _).
    + reflexivity.
    + simpl. tauto.
    + split; [reflexivity |]. apply Hzoom. left. reflexivity.
  - destruct (chords_are_not_focus_gated v editing) as (_ & Honly).
    destruct (Honly OtherTarget HTMLInputElement) as [(Hm & _) | Hsingle].
    + discriminate.
    + discriminate Hm.
    + exact Hsingle.
Defined.

(** ** Clamping *)

Lemma toolShortcut_scale (k : string) (s : AppState) :
  scale (snd (toolShortcut k s)) = scale s.
Proof. apply toolShortcut_frame. Qed.

Lemma keydown_scale_in_range (e : KeyboardEvent.t) (s : AppState) :
  scaleInRange (scale s) -> scaleInRange (scale (step (KeyDown e) s)).
Proof.
  intros Hs. unfold step, fire, handler, handleKeyDown.
  destruct (primaryModifier e && (KeyboardEvent.key e =? "z")%string).
  { rewrite seq_preventDefault. simpl.
    destruct (KeyboardEvent.shiftKey e); unfold handleRedo, handleUndo;
      case_guard; exact Hs. }
  destruct (primaryModifier e && (KeyboardEvent.key e =? "y")%string).
  { rewrite seq_preventDefault. simpl. unfold handleRedo. case_guard; exact Hs. }
  destruct (primaryModifier e
            && ((KeyboardEvent.key e =? "=")%string || (KeyboardEvent.key e =? "+")%string)).
  { rewrite seq_preventDefault. simpl. now apply zoom_in_in_range. }
  destruct (primaryModifier e && (KeyboardEvent.key e =? "-")%string).
  { rewrite seq_preventDefault. simpl. now apply zoom_out_in_range. }
  repeat case_guard; try exact Hs.
  now rewrite toolShortcut_scale.
Qed.

Lemma wheel_scale_in_range (e : WheelEvent.t) (s : AppState) :
  is_nan (WheelEvent.deltaY e) = false ->
  scaleInRange (scale s) -> scaleInRange (scale (step (Wheel e) s)).
Proof.
  intros Hd Hs. unfold step, fire, handler, handleWheel.
  case_guard; [| exact Hs].
  rewrite seq_preventDefault. simpl. now apply wheel_zoom_in_range.
Qed.

(** C8.  The three zoom updates are [Math.min(4.0, s + 0.1)] for
    ctrl/meta with [=] or [+], [Math.max(0.25, s - 0.1)] for ctrl/meta with
    [-], and [Math.min(4.0, Math.max(0.25, s + -deltaY * 0.001))] for the
    wheel with ctrl/meta, in binary64 arithmetic; and from a scale in
    [0.25, 4.0] every sequence of keyboard and wheel events, of any length
    and with any [deltaY] a wheel event can carry (any number but NaN), ends
    with the scale in [0.25, 4.0]. *)
Theorem scale_stays_clamped (acts : list Action) (s : AppState) :
  Forall isInput acts ->
  scaleInRange (scale s) ->
  scaleInRange (scale (run acts s))
  /\ (forall e, primaryModifier e = true ->
        (KeyboardEvent.key e = "="%string \/ KeyboardEvent.key e = "+"%string ->
         scale (step (KeyDown e) s) = Math_min 4.0 (scale s + 0.1))
        /\ (KeyboardEvent.key e = "-"%string ->
            scale (step (KeyDown e) s) = Math_max 0.25 (scale s - 0.1)))
  /\ (forall w, (WheelEvent.ctrlKey w || WheelEvent.metaKey w)%bool = true ->
        scale (step (Wheel w) s)
        = Math_min 4.0 (Math_max 0.25 (scale s + - WheelEvent.deltaY w * 0.001))).
Proof.
  intros Hacts Hs. split; [| split].
  - revert s Hs. induction Hacts as [| a acts Ha _ IH]; intros s Hs; simpl.
    + exact Hs.
    + apply IH. destruct a; try contradiction.
      * now apply keydown_scale_in_range.
      * now apply wheel_scale_in_range.
  - intros e Hmod.
    destruct (handleKeyDown_chord s e Hmod) as (_ & _ & Hp & Hm).
    unfold step, fire, handler.
    split; intros Hk.
    + rewrite (Hp Hk), seq_preventDefault. reflexivity.
    + rewrite (Hm Hk), seq_preventDefault. reflexivity.
  - intros w Hmod. unfold step, fire, handler, handleWheel.
    rewrite Hmod, seq_preventDefault. reflexivity.
Qed.

(** Thirty-five [ctrl+=] presses from scale 1.0 stop at 4.0, and a wheel step
    with [deltaY = 100000] from there stops at 0.25. *)
Lemma scale_stays_clamped_witness :
  let plus := KeyDown (KeyboardEvent.mk "=" true false false OtherTarget) in
  let far := Wheel (WheelEvent.mk true false 100000) in
  let s := run (repeat plus 35 ++ [far]) initialState in
  scaleInRange (scale s)
  /\ scale (run (repeat plus 35) initialState) = 4.0%float
  /\ scale s = 0.25%float.
Proof.
  intros plus far s.
  split; [| split].
  - apply (scale_stays_clamped (repeat plus 35 ++ [far]) initialState).
    + apply Forall_app. split.
      * apply Forall_forall. intros a Ha. apply repeat_spec in Ha. now subst a.
      * constructor; [reflexivity | constructor].
    + split; reflexivity.
  - vm_compute. reflexivity.
  - vm_compute. reflexivity.
Defined.

Lemma toolShortcut_lineWidth (k : string) (s : AppState) :
  lineWidthInRange (ToolProperties.lineWidth (toolProperties s)) ->
  lineWidthInRange (ToolProperties.lineWidth (toolProperties (snd (toolShortcut k s)))).
Proof.
  intros Hw. unfold toolShortcut. repeat case_guard; simpl; try exact Hw.
  - now apply narrower_in_range.
  - now apply wider_in_range.
Qed.

Lemma keydown_lineWidth_in_range (e : KeyboardEvent.t) (s : AppState) :
  lineWidthInRange (ToolProperties.lineWidth (toolProperties s)) ->
  lineWidthInRange (ToolProperties.lineWidth (toolProperties (step (KeyDown e) s))).
Proof.
  intros Hw. unfold step, fire, handler, handleKeyDown.
  destruct (primaryModifier e && (KeyboardEvent.key e =? "z")%string).
  { rewrite seq_preventDefault. simpl.
    destruct (KeyboardEvent.shiftKey e); unfold handleRedo, handleUndo;
      case_guard; exact Hw. }
  destruct (primaryModifier e && (KeyboardEvent.key e =? "y")%string).
  { rewrite seq_preventDefault. simpl. unfold handleRedo. case_guard; exact Hw. }
  repeat case_guard; try exact Hw.
  now apply toolShortcut_lineWidth.
Qed.

(** C9.  In edit mode, with the focus outside text fields, [[] replaces the
    line width by [Math.max(1, w - 1)] and []] by [Math.min(100, w + 1)], so
    the clamp is applied to the stored value; and from a line width in
    [1, 100] every sequence of keyboard and wheel events, of any length, ends
    with the line width in [1, 100]. *)
Theorem lineWidth_stays_clamped (acts : list Action) (s : AppState) :
  Forall isInput acts ->
  lineWidthInRange (ToolProperties.lineWidth (toolProperties s)) ->
  lineWidthInRange (ToolProperties.lineWidth (toolProperties (run acts s)))
  /\ (forall e,
        isEditMode s = true -> isTextEntry (KeyboardEvent.target e) = false ->
        (KeyboardEvent.key e = "["%string ->
         toolProperties (step (KeyDown e) s)
         = ToolProperties.with_lineWidth (toolProperties s)
             (Math_max 1 (ToolProperties.lineWidth (toolProperties s) - 1)))
        /\ (KeyboardEvent.key e = "]"%string ->
            toolProperties (step (KeyDown e) s)
            = ToolProperties.with_lineWidth (toolProperties s)
                (Math_min 100 (ToolProperties.lineWidth (toolProperties s) + 1)))).
Proof.
  intros Hacts Hw. split.
  - revert s Hw. induction Hacts as [| a acts Ha _ IH]; intros s Hw; simpl.
    + exact Hw.
    + apply IH. destruct a; try contradiction.
      * now apply keydown_lineWidth_in_range.
      * unfold step, fire, handler, handleWheel. case_guard; exact Hw.
  - intros e Hedit Hfocus.
    unfold step, fire, handler, handleKeyDown.
    split; intros Hk; rewrite Hk, Hedit, Hfocus; simpl;
      rewrite !andb_false_r; reflexivity.
Qed.

(** From the initial width 2, five [[] presses in edit mode stop at 1, and a
    hundred and five []] presses after them stop at 100. *)
Lemma lineWidth_stays_clamped_witness :
  let narrower := KeyDown (KeyboardEvent.mk "[" false false false OtherTarget) in
  let wider := KeyDown (KeyboardEvent.mk "]" false false false OtherTarget) in
  let editing := step ToggleEditMode initialState in
  let s := run (repeat narrower 5) editing in
  lineWidthInRange (ToolProperties.lineWidth (toolProperties s))
  /\ ToolProperties.lineWidth (toolProperties s) = 1%float
  /\ ToolProperties.lineWidth (toolProperties (run (repeat wider 105) s)) = 100%float.
Proof.
  intros narrower wider editing s.
  split; [| split].
  - apply (lineWidth_stays_clamped (repeat narrower 5) editing).
    + apply Forall_forall. intros a Ha. apply repeat_spec in Ha. now subst a.
    + split; reflexivity.
  - vm_compute. reflexivity.
  - vm_compute. reflexivity.
Defined.

(** * Part IV: further properties of the component *)

(** ** The history as a whole *)

(** The state after a commit, spelled out. *)
Lemma commit_state (s : AppState) (updateFn : UpdateFn) :
  hist_wf s ->
  let s' := step (AnnotationsChange updateFn) s in
  history s'
  = push (firstn (S (Z.to_nat (historyStep s))) (history s))
         (updateFn (currentAnnotations s))
  /\ historyStep s' = historyStep s + 1
  /\ scale s' = scale s /\ isEditMode s' = isEditMode s
  /\ activeTool s' = activeTool s /\ activeShape s' = activeShape s
  /\ toolProperties s' = toolProperties s.
Proof.
  intros Hwf s'. unfold hist_wf in Hwf.
  split; [| split; [| repeat split]].
  - unfold s', step, fire, handler. rewrite commit_history.
    rewrite slice0_in_range by lia.
    now replace (Z.to_nat (historyStep s + 1)) with (S (Z.to_nat (historyStep s))) by lia.
  - unfold s', step, fire, handler. rewrite commit_historyStep, length_push.
    rewrite length_slice0 by lia. lia.
Qed.

Lemma commit_then_undo_current (s : AppState) (updateFn : UpdateFn) :
  hist_wf s ->
  let s1 := step (AnnotationsChange updateFn) s in
  currentAnnotations (step Undo s1) = currentAnnotations s
  /\ step Redo (step Undo s1) = s1.
Proof.
  intros Hwf s1.
  destruct (commit_state s updateFn Hwf) as (Hh & Hs & _). fold s1 in Hh, Hs.
  pose proof (hist_wf_commit s updateFn Hwf) as Hwf1. fold s1 in Hwf1.
  unfold hist_wf in Hwf, Hwf1.
  assert (Hundo : step Undo s1
                  = mkApp (scale s1) (isEditMode s1) (activeTool s1) (activeShape s1)
                          (toolProperties s1) (history s1) (historyStep s)).
  { rewrite step_undo. destruct (Z.ltb_spec 0 (historyStep s1)); [| lia].
    f_equal. lia. }
  split.
  - rewrite Hundo. unfold currentAnnotations. cbn [history historyStep].
    rewrite Hh, index_push_before.
    + apply index_firstn. lia.
    + unfold length_ in *. rewrite length_firstn. lia.
  - rewrite Hundo, step_redo. cbn [history historyStep].
    destruct (Z.ltb_spec (historyStep s) (length_ (history s1) - 1)); [| lia].
    destruct s1; cbn in *. f_equal. lia.
Qed.

(** X1.  In every state the component can reach, [history[historyStep]] is
    defined: the viewer is never handed [undefined] as its annotations. *)
Theorem current_annotations_always_defined (s : AppState) :
  reachable s -> exists set, currentAnnotations s = Some set.
Proof.
  intros Hr. apply index_defined. exact (reachable_hist_wf s Hr).
Qed.

Lemma current_annotations_always_defined_witness :
  let s := run [AnnotationsChange (fun _ => [stroke "A"]);
                AnnotationsChange (fun _ => [stroke "A"; stroke "B"]);
                Undo; LoadFile (mkFile "text/plain")] initialState in
  exists set, currentAnnotations s = Some set.
Proof.
  intros s. apply (current_annotations_always_defined s).
  eexists. reflexivity.
Defined.







(** X3.  Every edit can be undone and redone: in a state with
    [0 <= historyStep < history.length], a commit followed by undo shows the
    annotations that were current before the commit, and a redo after that
    gives back the state the commit produced. *)
Theorem commit_is_undoable (s : AppState) (updateFn : UpdateFn) :
  hist_wf s ->
  let s1 := step (AnnotationsChange updateFn) s in
  currentAnnotations (step Undo s1) = currentAnnotations s
  /\ step Redo (step Undo s1) = s1.
Proof. exact (commit_then_undo_current s updateFn). Qed.

Lemma commit_is_undoable_witness :
  let s := step (AnnotationsChange (fun _ => [stroke "A"])) initialState in
  let s1 := step (AnnotationsChange (fun _ => [stroke "A"; stroke "B"])) s in
  currentAnnotations (step Undo s1) = Some [stroke "A"]
  /\ step Redo (step Undo s1) = s1.
Proof.
  intros s s1.
  assert (Hwf : hist_wf s) by (unfold hist_wf, length_; simpl; unfold val; simpl; lia).
  destruct (commit_is_undoable s (fun _ => [stroke "A"; stroke "B"]) Hwf) as (Hc & Hr).
  split; [etransitivity; [exact Hc | reflexivity] | exact Hr].
Defined.

(** X4.  Clear-all is gated by the confirmation and stays undoable: when the
    dialog is declined nothing is called and the state is unchanged; when it
    is confirmed the current set becomes empty through an ordinary commit,
    so one undo shows the annotations again. *)
Theorem clear_all_is_confirmed_and_undoable (s : AppState) :
  fire (ClearAnnotations false) s = ([], s)
  /\ (hist_wf s ->
      let s1 := step (ClearAnnotations true) s in
      s1 = step (AnnotationsChange (fun _ => [])) s
      /\ currentAnnotations s1 = Some []
      /\ length_ (history s1) = historyStep s + 2
      /\ currentAnnotations (step Undo s1) = currentAnnotations s).
Proof.
  split; [reflexivity |].
  intros Hwf s1.
  assert (Hs1 : s1 = step (AnnotationsChange (fun _ => [])) s) by reflexivity.
  destruct (commit_state s (fun _ => []) Hwf) as (Hh & Hs & _).
  rewrite <- Hs1 in Hh, Hs.
  assert (Hlen : length_ (firstn (S (Z.to_nat (historyStep s))) (history s))
                 = historyStep s + 1).
  { unfold hist_wf, length_ in *. rewrite length_firstn. lia. }
  split; [exact Hs1 |]. split; [| split].
  - unfold currentAnnotations. rewrite Hs, Hh, <- Hlen. apply index_push_last.
  - rewrite Hh, length_push, Hlen. lia.
  - rewrite Hs1. apply (commit_then_undo_current s (fun _ => []) Hwf).
Qed.

Lemma clear_all_is_confirmed_and_undoable_witness :
  let s := step (AnnotationsChange (fun _ => [stroke "A"])) initialState in
  currentAnnotations (step (ClearAnnotations true) s) = Some []
  /\ currentAnnotations (step Undo (step (ClearAnnotations true) s)) = Some [stroke "A"].
Proof.
  intros s.
  assert (Hwf : hist_wf s) by (unfold hist_wf, length_; simpl; unfold val; simpl; lia).
  destruct (clear_all_is_confirmed_and_undoable s) as (_ & H).
  destruct (H Hwf) as (_ & Hc & _ & Hu).
  split; [exact Hc | etransitivity; [exact Hu | reflexivity]].
Defined.

(** ** Loading a document *)

(** X5.  Loading a PDF discards the history for good: the sequence is the
    single empty snapshot at step 0, so undo and redo do nothing, and the
    view restarts at page 1 with no page count and no text while the loading
    bar is on.  A file of any other type only raises the alert: the whole
    state is left as it was. *)
Theorem load_resets_document_state (file : File) (s : AppState) (v : ViewState) :
  (file_type file = "application/pdf"%string ->
   let r := loadFile_ui file (s, v) in
   let s' := fst (snd r) in
   let v' := snd (snd r) in
   fst r = [SetHistory; SetHistoryStep]
   /\ history s' = [[]] /\ historyStep s' = 0
   /\ currentAnnotations s' = Some []
   /\ fire Undo s' = ([], s') /\ fire Redo s' = ([], s')
   /\ pdfFile v' = Some file
   /\ currentPage v' = 1%float /\ numPages v' = 0%float
   /\ pdfText v' = EmptyString /\ isGlobalLoading v' = true)
  /\ (file_type file <> "application/pdf"%string ->
      loadFile_ui file (s, v) = ([Alert], (s, v))).
Proof.
  unfold loadFile_ui, loadFile_view, fire, handler, loadFile. split.
  - intros Hpdf. rewrite Hpdf. cbn. repeat split.
  - intros Hother. apply String.eqb_neq in Hother. rewrite Hother. reflexivity.
Qed.

Lemma load_resets_document_state_witness :
  let s := step (AnnotationsChange (fun _ => [stroke "A"])) initialState in
  let pdf := mkFile "application/pdf" in
  let png := mkFile "image/png" in
  currentAnnotations (fst (snd (loadFile_ui pdf (s, initialView)))) = Some []
  /\ loadFile_ui png (s, initialView) = ([Alert], (s, initialView)).
Proof.
  intros s pdf png.
  destruct (load_resets_document_state pdf s initialView) as (Hpdf & _).
  destruct (load_resets_document_state png s initialView) as (_ & Hpng).
  split.
  - apply Hpdf. reflexivity.
  - apply Hpng. discriminate.
Defined.

(** ** What each group of handlers leaves alone *)

(** X6.  The history engine never touches the tool state: commit, undo,
    redo, clear-all and loading a file leave the scale, the edit-mode flag,
    the active tool, the active shape and the tool properties as they were.
    In particular the zoom and the tool survive a new document. *)
Theorem history_operations_preserve_tool_state (a : Action) (s : AppState) :
  isHistoryOp a ->
  scale (step a s) = scale s /\ isEditMode (step a s) = isEditMode s
  /\ activeTool (step a s) = activeTool s /\ activeShape (step a s) = activeShape s
  /\ toolProperties (step a s) = toolProperties s.
Proof.
  destruct a; intros Hop; try contradiction.
  - unfold step, fire, handler. cbn. repeat split.
  - rewrite step_undo. case_guard; repeat split.
  - rewrite step_redo. case_guard; repeat split.
  - destruct confirmed; unfold step, fire, handler; cbn; repeat split.
  - unfold step, fire, handler, loadFile. case_guard; cbn; repeat split.
Qed.

Lemma history_operations_preserve_tool_state_witness :
  let s := run [ToggleEditMode; ChildSetActiveTool ToolType.PEN;
                ChildSetScale 2%float] initialState in
  let s' := step (LoadFile (mkFile "application/pdf")) s in
  scale s' = 2%float /\ isEditMode s' = true /\ activeTool s' = ToolType.PEN.
Proof.
  intros s s'.
  destruct (history_operations_preserve_tool_state
              (LoadFile (mkFile "application/pdf")) s I) as (H1 & H2 & H3 & _).
  split; [exact H1 |]. split; [exact H2 | exact H3].
Defined.

(** X7.  The snapshot sequence changes only through a commit, a confirmed
    clear-all or a loaded PDF: every other event of the component (keys,
    including the undo and redo chords, wheel, undo, redo, a declined
    clear-all, a rejected file, the edit-mode toggle and the setters handed
    to the children) leaves [history] as it was. *)
Theorem history_changes_only_by_commit_clear_load (a : Action) (s : AppState) :
  ~ rewritesHistory a -> history (step a s) = history s.
Proof.
  destruct a; intros Hno; try reflexivity.
  - apply keydown_frame.
  - apply wheel_frame.
  - elim Hno. exact I.
  - rewrite step_undo. now case_guard.
  - rewrite step_redo. now case_guard.
  - destruct confirmed; [elim Hno; exact I | reflexivity].
  - unfold step, fire, handler, loadFile.
    destruct (String.eqb_spec (file_type file) "application/pdf") as [E | _];
      [now elim Hno | reflexivity].
Qed.

Lemma history_changes_only_by_commit_clear_load_witness :
  let s := step (AnnotationsChange (fun _ => [stroke "A"])) initialState in
  let undoChord := KeyDown (KeyboardEvent.mk "z" true false false OtherTarget) in
  history (step undoChord s) = [[]; [stroke "A"]]
  /\ historyStep (step undoChord s) = 0.
Proof.
  intros s undoChord. split; [| reflexivity].
  etransitivity.
  - apply (history_changes_only_by_commit_clear_load undoChord s). intros [].
  - reflexivity.
Defined.

(** ** The dispatcher beyond the gates *)

(** A single-key shortcut passes the chord guards and the magnify guard. *)
Lemma handleKeyDown_single_key (c : AppState) (e : KeyboardEvent.t) :
  In (toLowerCase (KeyboardEvent.key e)) singleKeys ->
  handleKeyDown c e
  = if negb (isEditMode c) then ret
    else if isTextEntry (KeyboardEvent.target e) then ret
    else toolShortcut (toLowerCase (KeyboardEvent.key e)).
Proof.
  intros Hkey. unfold handleKeyDown.
  destruct (String.eqb_spec (KeyboardEvent.key e) "z") as [E | _];
    [rewrite E in Hkey; simpl in Hkey; intuition discriminate |].
  destruct (String.eqb_spec (KeyboardEvent.key e) "y") as [E | _];
    [rewrite E in Hkey; simpl in Hkey; intuition discriminate |].
  destruct (String.eqb_spec (KeyboardEvent.key e) "=") as [E | _];
    [rewrite E in Hkey; simpl in Hkey; intuition discriminate |].
  destruct (String.eqb_spec (KeyboardEvent.key e) "+") as [E | _];
    [rewrite E in Hkey; simpl in Hkey; intuition discriminate |].
  destruct (String.eqb_spec (KeyboardEvent.key e) "-") as [E | _];
    [rewrite E in Hkey; simpl in Hkey; intuition discriminate |].
  destruct (String.eqb_spec (toLowerCase (KeyboardEvent.key e)) "m") as [E | _];
    [rewrite E in Hkey; simpl in Hkey; intuition discriminate |].
  rewrite !andb_false_r. reflexivity.
Qed.

(** X8.  In edit mode, with the focus outside text inputs and textareas, the
    tool keys work whatever modifiers are held and in either letter case:
    [v p h e t] select their tool and leave the shape variant alone, and
    [r c l a] select the shape tool together with their variant.  None of them
    calls [preventDefault], and nothing else changes. *)
Theorem tool_keys_select_tool_and_shape
    (e : KeyboardEvent.t) (s : AppState) (tool : ToolType.t)
    (shape : option ShapeType.t) :
  isEditMode s = true ->
  isTextEntry (KeyboardEvent.target e) = false ->
  In (toLowerCase (KeyboardEvent.key e), (tool, shape)) toolKeys ->
  let s' := step (KeyDown e) s in
  activeTool s' = tool
  /\ activeShape s' = match shape with Some variant => variant | None => activeShape s end
  /\ ~ In PreventDefault (fst (fire (KeyDown e) s))
  /\ scale s' = scale s /\ isEditMode s' = isEditMode s
  /\ toolProperties s' = toolProperties s
  /\ history s' = history s /\ historyStep s' = historyStep s.
Proof.
  intros Hedit Hfocus Hin s'. subst s'.
  assert (Hsingle : In (toLowerCase (KeyboardEvent.key e)) singleKeys).
  { unfold toolKeys in Hin. unfold singleKeys. simpl in Hin |- *.
    repeat (destruct Hin as [Hin | Hin];
            [injection Hin as <- _ _; tauto |]).
    contradiction. }
  unfold step, fire, handler.
  rewrite (handleKeyDown_single_key s e Hsingle), Hedit, Hfocus.
  cbn [negb].
  unfold toolKeys in Hin. simpl in Hin.
  repeat (destruct Hin as [Hin | Hin];
          [injection Hin as <- <- <-; cbn;
           repeat split; simpl; intuition discriminate |]).
  contradiction.
Qed.

(** [Ctrl+Shift+R] in edit mode picks the rectangle: the switch does not look
    at the modifiers. *)
Lemma tool_keys_select_tool_and_shape_witness :
  let e := KeyboardEvent.mk "R" true false true OtherTarget in
  let s := step ToggleEditMode initialState in
  activeTool (step (KeyDown e) s) = ToolType.SHAPE
  /\ activeShape (step (KeyDown e) s) = ShapeType.RECTANGLE.
Proof.
  intros e s.
  destruct (tool_keys_select_tool_and_shape e s ToolType.SHAPE
              (Some ShapeType.RECTANGLE)) as (Ht & Hs & _).
  - reflexivity.
  - reflexivity.
  - simpl. tauto.
  - split; [exact Ht | exact Hs].
Defined.

(** X9.  Every other key is ignored.  A key event makes no call and leaves
    the state unchanged when its lower-case key is not a single-key shortcut,
    it is not a chord (ctrl or meta with [z y = + -]), and it is not a
    magnify toggle (an [m] is one only with ctrl and meta up and the focus
    outside text fields, so an [m] typed into a text field does nothing). *)
Theorem unbound_keys_are_ignored (e : KeyboardEvent.t) (s : AppState) :
  ~ In (toLowerCase (KeyboardEvent.key e)) singleKeys ->
  primaryModifier e = false \/ ~ In (KeyboardEvent.key e) chordKeys ->
  toLowerCase (KeyboardEvent.key e) <> "m"%string
  \/ primaryModifier e = true
  \/ isTextEntry (KeyboardEvent.target e) = true ->
  fire (KeyDown e) s = ([], s).
Proof.
  intros Hsingle Hchord Hm.
  assert (Hz : forall k, In k chordKeys ->
                 primaryModifier e && (KeyboardEvent.key e =? k)%string = false).
  { intros k Hk. destruct Hchord as [-> | Hno]; [reflexivity |].
    destruct (String.eqb_spec (KeyboardEvent.key e) k) as [E | _];
      [| apply andb_false_r].
    elim Hno. now rewrite E. }
  assert (Hmag : (toLowerCase (KeyboardEvent.key e) =? "m")%string
                 && negb (KeyboardEvent.ctrlKey e) && negb (KeyboardEvent.metaKey e)
                 && negb (isTextEntry (KeyboardEvent.target e)) = false).
  { unfold primaryModifier in Hm.
    destruct Hm as [Hne | [Hmod | Hfocus]].
    - apply String.eqb_neq in Hne. now rewrite Hne.
    - destruct (KeyboardEvent.ctrlKey e), (KeyboardEvent.metaKey e);
        try discriminate; now rewrite ?andb_false_r.
    - rewrite Hfocus. apply andb_false_r. }
  unfold fire, handler, handleKeyDown.
  rewrite (Hz "z"%string), (Hz "y"%string) by (simpl; tauto).
  rewrite andb_orb_distrib_r, (Hz "="%string), (Hz "+"%string) by (simpl; tauto).
  rewrite (Hz "-"%string) by (simpl; tauto).
  cbn [orb]. rewrite Hmag.
  destruct (toolShortcut_other (toLowerCase (KeyboardEvent.key e))) as [Hk | ->];
    [contradiction |].
  now destruct (negb (isEditMode s)), (isTextEntry (KeyboardEvent.target e)).
Qed.

Lemma unbound_keys_are_ignored_witness :
  let typedM := KeyboardEvent.mk "m" false false false HTMLTextAreaElement in
  let ctrlS := KeyboardEvent.mk "s" true false false OtherTarget in
  let s := step ToggleEditMode initialState in
  fire (KeyDown typedM) s = ([], s) /\ fire (KeyDown ctrlS) s = ([], s).
Proof.
  intros typedM ctrlS s. split.
  - apply (unbound_keys_are_ignored typedM s).
    + simpl. intuition discriminate.
    + left. reflexivity.
    + right. right. reflexivity.
  - apply (unbound_keys_are_ignored ctrlS s).
    + simpl. intuition discriminate.
    + right. simpl. intuition discriminate.
    + left. discriminate.
Defined.

(** The magnify toggle, spelled out. *)
Lemma m_key_step (e : KeyboardEvent.t) (s : AppState) :
  toLowerCase (KeyboardEvent.key e) = "m"%string ->
  primaryModifier e = false ->
  isTextEntry (KeyboardEvent.target e) = false ->
  step (KeyDown e) s = snd (setActiveTool (toggleMagnify s) s).
Proof.
  intros Hkey Hmod Hfocus.
  unfold step, fire, handler, handleKeyDown.
  rewrite Hmod, Hkey, Hfocus.
  unfold primaryModifier in Hmod. apply orb_false_elim in Hmod.
  destruct Hmod as [-> ->]. reflexivity.
Qed.

(** X10.  The magnify toggle remembers nothing: two [m] presses in a row end
    on [MAGNIFY] if the tool was [MAGNIFY], and otherwise on the fallback of
    the current mode ([SELECT] in edit mode, [PAN] outside it), so the tool
    the user had comes back only if it was that fallback. *)
Theorem magnify_toggle_forgets_tool (e : KeyboardEvent.t) (s : AppState) :
  toLowerCase (KeyboardEvent.key e) = "m"%string ->
  primaryModifier e = false ->
  isTextEntry (KeyboardEvent.target e) = false ->
  let s2 := step (KeyDown e) (step (KeyDown e) s) in
  (activeTool s = ToolType.MAGNIFY -> activeTool s2 = ToolType.MAGNIFY)
  /\ (activeTool s <> ToolType.MAGNIFY -> activeTool s2 = fallbackTool s)
  /\ (activeTool s2 = activeTool s <->
      activeTool s = ToolType.MAGNIFY \/ activeTool s = fallbackTool s).
Proof.
  intros Hkey Hmod Hfocus s2. subst s2.
  rewrite !(m_key_step e _ Hkey Hmod Hfocus).
  unfold fallbackTool.
  destruct s as [sc edit tool shape props hist hstep]. cbn.
  destruct tool, edit; cbn; intuition congruence.
Qed.

Lemma magnify_toggle_forgets_tool_witness :
  let m := KeyboardEvent.mk "m" false false false OtherTarget in
  let s := run [ToggleEditMode; ChildSetActiveTool ToolType.PEN] initialState in
  activeTool s = ToolType.PEN
  /\ activeTool (step (KeyDown m) (step (KeyDown m) s)) = ToolType.SELECT.
Proof.
  intros m s. split; [reflexivity |].
  destruct (magnify_toggle_forgets_tool m s eq_refl eq_refl eq_refl) as (_ & H & _).
  apply H. discriminate.
Defined.

(** ** Clamping, across every handler *)

(** X11.  No handler of the component takes the scale out of [0.25, 4.0]:
    starting in the range, it stays there under every sequence of events in
    which a wheel delta is never NaN and a child calls the raw [setScale]
    only with values of the range, which the fit-screen (0.8), fit-width
    (1.2) and reset-view (1.0) buttons do. *)
Theorem scale_clamped_under_every_handler (acts : list Action) (s : AppState) :
  Forall keepsScale acts ->
  scaleInRange (scale s) ->
  scaleInRange (scale (run acts s))
  /\ keepsScale onFitScreen /\ keepsScale onFitWidth /\ keepsScale onResetView_scale.
Proof.
  intros Hacts Hs. split; [| repeat split].
  revert s Hs. induction Hacts as [| a acts Ha _ IH]; intros s Hs; simpl.
  - exact Hs.
  - apply IH. destruct a; simpl in Ha.
    + now apply keydown_scale_in_range.
    + now apply wheel_scale_in_range.
    + exact Hs.
    + rewrite step_undo. now case_guard.
    + rewrite step_redo. now case_guard.
    + now destruct confirmed.
    + unfold step, fire, handler, loadFile. now case_guard.
    + exact Hs.
    + exact Ha.
    + exact Hs.
    + exact Hs.
    + exact Hs.
Qed.

Lemma scale_clamped_under_every_handler_witness :
  let minus := KeyDown (KeyboardEvent.mk "-" true false false OtherTarget) in
  let acts := [onFitScreen; minus; minus; minus; minus; minus; minus;
               LoadFile (mkFile "application/pdf"); onFitWidth; ToggleEditMode] in
  scaleInRange (scale (run (firstn 7 acts) initialState))
  /\ scale (run (firstn 7 acts) initialState) = 0.25%float
  /\ scaleInRange (scale (run acts initialState)).
Proof.
  intros minus acts.
  assert (Hs : scaleInRange (scale initialState)) by (split; reflexivity).
  split; [| split].
  - apply (scale_clamped_under_every_handler (firstn 7 acts) initialState); [| exact Hs].
    repeat constructor; split; reflexivity.
  - vm_compute. reflexivity.
  - apply (scale_clamped_under_every_handler acts initialState); [| exact Hs].
    repeat constructor; split; reflexivity.
Defined.

(** X12.  Likewise for the line width: starting in [1, 100], it stays there
    under every sequence of events in which the sidebar's raw
    [setProperties] is called only with a width of the range. *)
Theorem lineWidth_clamped_under_every_handler (acts : list Action) (s : AppState) :
  Forall keepsLineWidth acts ->
  lineWidthInRange (ToolProperties.lineWidth (toolProperties s)) ->
  lineWidthInRange (ToolProperties.lineWidth (toolProperties (run acts s))).
Proof.
  intros Hacts Hw.
  revert s Hw. induction Hacts as [| a acts Ha _ IH]; intros s Hw; simpl.
  - exact Hw.
  - apply IH. destruct a; simpl in Ha.
    + now apply keydown_lineWidth_in_range.
    + unfold step, fire, handler, handleWheel. now case_guard.
    + exact Hw.
    + rewrite step_undo. now case_guard.
    + rewrite step_redo. now case_guard.
    + now destruct confirmed.
    + unfold step, fire, handler, loadFile. now case_guard.
    + exact Hw.
    + exact Hw.
    + exact Hw.
    + exact Hw.
    + exact Ha.
Qed.

Lemma lineWidth_clamped_under_every_handler_witness :
  let wider := KeyDown (KeyboardEvent.mk "]" false false false OtherTarget) in
  let thick := ToolProperties.with_lineWidth (toolProperties initialState) 99.5%float in
  let acts := [ToggleEditMode; ChildSetProperties thick; wider; wider;
               Wheel (WheelEvent.mk true false nan); Undo] in
  lineWidthInRange (ToolProperties.lineWidth (toolProperties (run acts initialState)))
  /\ ToolProperties.lineWidth (toolProperties (run acts initialState)) = 100%float.
Proof.
  intros wider thick acts. split.
  - apply (lineWidth_clamped_under_every_handler acts initialState).
    + repeat constructor; split; reflexivity.
    + split; reflexivity.
  - vm_compute. reflexivity.
Defined.

(** ** Page navigation *)

Lemma binary_normalize_not_nan (m e : Z) (szero : bool) :
  SFis_nan (binary_normalize prec emax m e szero) = false.
Proof.
  unfold binary_normalize.
  destruct m; try reflexivity;
    unfold binary_round; destruct (shl_align _ _ _);
    now apply binary_round_aux_not_nan.
Qed.

Lemma add_pos_not_nan (p c : number) :
  is_nan p = false -> pos_finite c -> is_nan (p + c)%float = false.
Proof.
  intros Hp (m & e & Hc). revert Hp. rewrite !is_nan_spec, add_spec, Hc.
  unfold SF64add, SFadd.
  destruct (Prim2SF p) as [s | s | | s mp ep]; try reflexivity; try discriminate.
  intros _. apply binary_normalize_not_nan.
Qed.

Lemma sub_pos_not_nan (p c : number) :
  is_nan p = false -> pos_finite c -> is_nan (p - c)%float = false.
Proof.
  intros Hp (m & e & Hc). revert Hp. rewrite !is_nan_spec, sub_spec, Hc.
  unfold SF64sub, SFsub.
  destruct (Prim2SF p) as [s | s | | s mp ep]; try reflexivity; try discriminate.
  intros _. apply binary_normalize_not_nan.
Qed.

(** A finite number from 1 on is positive and finite. *)
Lemma finite_ge_one_pos_finite (n : number) :
  (1 <=? n)%float = true -> finite n -> pos_finite n.
Proof.
  unfold finite, is_finite, is_infinity.
  rewrite FloatAxioms.leb_spec, is_nan_spec, FloatAxioms.eqb_spec, abs_spec.
  change (Prim2SF 1) with (S754_finite false 4503599627370496 (-52)).
  change (Prim2SF infinity) with (S754_infinity false).
  unfold pos_finite, SFleb, SFeqb.
  destruct (Prim2SF n) as [s | [] | | [] m e]; cbn; try discriminate.
  intros _ _. eauto.
Qed.

Lemma prev_page_in_range (n p : number) :
  finite n -> between 1 n p -> between 1 n (Math_max 1 (p - 1)%float).
Proof.
  intros Hfin [Hlo Hhi].
  assert (Pn : pos_finite n)
    by (apply finite_ge_one_pos_finite; [exact (leb_trans _ _ _ Hlo Hhi) | exact Hfin]).
  exact (step_down_in_range 1 n 1 p pos_finite_1 Pn pos_finite_1 Hlo Hhi).
Qed.

Lemma next_page_in_range (n p : number) :
  finite n -> between 1 n p -> between 1 n (Math_min n (p + 1)%float).
Proof.
  intros Hfin [Hlo Hhi].
  assert (Pn : pos_finite n)
    by (apply finite_ge_one_pos_finite; [exact (leb_trans _ _ _ Hlo Hhi) | exact Hfin]).
  exact (step_up_in_range 1 n 1 p pos_finite_1 Pn pos_finite_1 Hlo Hhi).
Qed.

Lemma pageStep_numPages (v : ViewState) (m : PageMove) :
  numPages (pageStep v m) = numPages v.
Proof. now destruct m. Qed.

(** X13.  With a finite page count and [1 <= currentPage <= numPages], any
    sequence of previous-page and next-page presses keeps the page in
    [1, numPages] and leaves the page count alone.  Outside that situation
    the two buttons are only one-sided: previous-page never ends below 1,
    and next-page never ends above [numPages], so before a document is
    loaded ([numPages = 0]) next-page moves the page from 1 to 0. *)
Theorem page_navigation_stays_in_range (moves : list PageMove) (v : ViewState) :
  (finite (numPages v) -> pageInRange v ->
   pageInRange (fold_left pageStep moves v)
   /\ numPages (fold_left pageStep moves v) = numPages v)
  /\ (is_nan (currentPage v) = false ->
      (1 <=? currentPage (onPrevPage v))%float = true)
  /\ (is_nan (currentPage v) = false -> is_nan (numPages v) = false ->
      (currentPage (onNextPage v v) <=? numPages v)%float = true).
Proof.
  split; [| split].
  - revert v. induction moves as [| m moves IH]; intros v Hfin Hin; simpl.
    + split; [exact Hin | reflexivity].
    + destruct (IH (pageStep v m)) as [Hr Hn].
      * now rewrite pageStep_numPages.
      * unfold pageInRange in *. rewrite pageStep_numPages.
        destruct m; cbn.
        -- now apply prev_page_in_range.
        -- now apply next_page_in_range.
      * split; [exact Hr | now rewrite Hn, pageStep_numPages].
  - intros Hp. cbn.
    apply Math_max_spec; [reflexivity |].
    apply sub_pos_not_nan; [exact Hp | exact pos_finite_1].
  - intros Hp Hn. cbn.
    apply Math_min_spec; [exact Hn |].
    apply add_pos_not_nan; [exact Hp | exact pos_finite_1].
Qed.

(** Three pages: next, next, next stops at 3, and previous four times stops
    at 1.  No document: next-page gives page 0. *)
Lemma page_navigation_stays_in_range_witness :
  let v := setNumPages (val 3%float) initialView in
  currentPage (fold_left pageStep [NextPage; NextPage; NextPage] v) = 3%float
  /\ pageInRange (fold_left pageStep [NextPage; NextPage; NextPage; PrevPage;
                                      PrevPage; PrevPage; PrevPage] v)
  /\ currentPage (onNextPage initialView initialView) = 0%float
  /\ (currentPage (onNextPage initialView initialView) <=? numPages initialView)%float
     = true.
Proof.
  intros v.
  split; [vm_compute; reflexivity |].
  split; [| split; [vm_compute; reflexivity |]].
  - apply (page_navigation_stays_in_range
             [NextPage; NextPage; NextPage; PrevPage; PrevPage; PrevPage; PrevPage] v).
    + reflexivity.
    + split; reflexivity.
  - apply (page_navigation_stays_in_range [] initialView); reflexivity.
Defined.

(** ** Cursor and pan dragging *)

(** X14.  The cursor class is decided by magnify first, then by pan dragging,
    then by the tool: the system cursor is hidden exactly when the tool is
    [MAGNIFY], the grabbing hand is shown exactly while dragging with any
    other tool, the open hand exactly for the idle pan tool, and the
    crosshair exactly for the idle pen, highlight and shape tools. *)
Theorem cursor_class_precedence (tool : ToolType.t) (panDragging : bool) :
  (cursorClass tool panDragging = "cursor-none"%string <-> tool = ToolType.MAGNIFY)
  /\ (cursorClass tool panDragging = "cursor-grabbing-theme"%string
      <-> panDragging = true /\ tool <> ToolType.MAGNIFY)
  /\ (cursorClass tool panDragging = "cursor-grab-theme"%string
      <-> panDragging = false /\ tool = ToolType.PAN)
  /\ (cursorClass tool panDragging = "cursor-crosshair-theme"%string
      <-> panDragging = false
          /\ (tool = ToolType.PEN \/ tool = ToolType.HIGHLIGHT \/ tool = ToolType.SHAPE)).
Proof.
  destruct tool, panDragging; cbn; repeat split;
    try discriminate; try tauto; try (intros [H1 H2]; (discriminate || congruence));
    try (intros [_ [H | [H | H]]]; discriminate H);
    try (intros [H _]; discriminate H); intuition congruence.
Qed.


(** ** The seed of the assistant *)




(** ** Page images for the assistant *)

(** X17.  [getCurrentPageImage] never returns the empty string: it is [null]
    when there is no viewer, when the viewer has no image, and when the
    viewer's image is the empty string; otherwise it is the viewer's image. *)
Theorem current_page_image_is_null_or_nonempty (viewerRef : option PDFViewerHandle) :
  getCurrentPageImage viewerRef <> Some EmptyString
  /\ (viewerRef = None -> getCurrentPageImage viewerRef = None)
  /\ (forall image,
        getCurrentPageImage viewerRef = Some image
        <-> exists viewer, viewerRef = Some viewer
                           /\ viewer_getCurrentPageImage viewer tt = Some image
                           /\ image <> EmptyString).
Proof.
  split; [| split].
  - destruct viewerRef as [viewer |]; cbn; [| discriminate].
    destruct (viewer_getCurrentPageImage viewer tt) as [[| ch rest] |]; discriminate.
  - now intros ->.
  - intros image. split.
    + destruct viewerRef as [viewer |]; cbn; [| discriminate].
      destruct (viewer_getCurrentPageImage viewer tt) as [[| ch rest] |] eqn:E;
        try discriminate.
      intros H. injection H as <-. exists viewer. repeat split; [exact E | discriminate].
    + intros (viewer & -> & Himg & Hne). cbn. rewrite Himg.
      destruct image; [now elim Hne | reflexivity].
Qed.

(** ** Dropping and choosing files *)

(** X18.  Of the files dropped or chosen only the first counts: the rest of
    the list never changes the outcome, so a list that starts with a file
    that is not a PDF loads nothing and raises the alert even if a PDF
    follows.  A drop always takes the drop overlay down, an empty drop does
    nothing else, and leaving the root element takes the overlay down only
    when the pointer does not move onto one of its descendants. *)
Theorem only_the_first_file_is_loaded (file : File) (rest : list File) (ui : Ui) :
  handleDrop (file :: rest) ui = handleDrop [file] ui
  /\ handleFileChange (file :: rest) ui = handleFileChange [file] ui
  /\ (file_type file <> "application/pdf"%string ->
      handleDrop (file :: rest) ui
      = ([Alert], (fst ui, setIsDragging (val false) (snd ui)))
      /\ handleFileChange (file :: rest) ui = ([Alert], ui))
  /\ isDragging (snd (snd (handleDrop (file :: rest) ui))) = false
  /\ handleDrop [] ui = ([], (fst ui, setIsDragging (val false) (snd ui)))
  /\ handleFileChange [] ui = ([], ui)
  /\ isDragging (handleDragOver (snd ui)) = true
  /\ handleDragLeave true (snd ui) = snd ui
  /\ isDragging (handleDragLeave false (snd ui)) = false.
Proof.
  destruct ui as [s v].
  split; [reflexivity |]. split; [reflexivity |].
  split; [| split; [| repeat split]].
  - intros Hother. apply String.eqb_neq in Hother.
    unfold handleDrop, handleFileChange, loadFile_ui, loadFile_view,
      fire, handler, loadFile.
    rewrite Hother. split; reflexivity.
  - unfold handleDrop, loadFile_ui, loadFile_view, fire, handler, loadFile.
    now destruct (file_type file =? "application/pdf")%string.
Qed.

Lemma only_the_first_file_is_loaded_witness :
  let s := step (AnnotationsChange (fun _ => [stroke "A"])) initialState in
  let ui := (s, handleDragOver initialView) in
  handleDrop [mkFile "image/png"; mkFile "application/pdf"] ui
  = ([Alert], (s, initialView)).
Proof.
  intros s ui.
  destruct (only_the_first_file_is_loaded (mkFile "image/png")
              [mkFile "application/pdf"] ui) as (_ & _ & H & _).
  destruct H as [H _]; [discriminate | exact H].
Defined.
